(** * Phase Change Diagram API

    A shallow embedding of [phase_change_api.py] and the properties of its
    piecewise-linear model.

    Python's [float] is IEEE 754 binary64 with round-to-nearest-even, which is
    the kernel's primitive [float]; the arithmetic of the source is therefore
    written with the primitive operations, and the general theorems go
    through their specification over [spec_float] ([FloatAxioms]). *)

From Stdlib Require Import ZArith Lia Bool List String Floats.
Import ListNotations.

Set Warnings "-inexact-float".

(** ** Python semantics used by the source *)

Module Py.

(** The exceptions the source names in its [except] clauses. *)
Inductive exn :=
| ZeroDivisionError
| ValueError (msg : string)
| OtherException (msg : string).

Inductive result (A : Type) :=
| Ret (a : A)
| Raise (e : exn).
Arguments Ret {A} a.
Arguments Raise {A} e.

Definition bind {A B : Type} (r : result A) (k : A -> result B) : result B :=
  match r with
  | Ret a => k a
  | Raise e => Raise e
  end.

(** [str(e)] of an exception raised with one message argument. *)
Definition str (e : exn) : string :=
  match e with
  | ZeroDivisionError => "float division by zero"
  | ValueError msg => msg
  | OtherException msg => msg
  end.

(** [a / b] on floats: a zero divisor (of either sign) raises, every other
    case is the IEEE quotient, infinities and NaN included. *)
Definition truediv (a b : float) : result float :=
  if (b =? 0)%float then Raise ZeroDivisionError else Ret (a / b)%float.

(** [isinstance(v, (int, float))] for a value that is a Python float: the
    test looks at the type only, so NaN and the infinities pass. *)
Definition isinstance_int_float (v : float) : bool := true.

(** The integer nearest to [n / d] for [0 < d], ties to the even one. *)
Definition Zrne (n d : Z) : Z :=
  let q := (n / d)%Z in
  match (2 * (n mod d) ?= d)%Z with
  | Lt => q
  | Gt => (q + 1)%Z
  | Eq => if Z.even q then q else (q + 1)%Z
  end.

(** [|x| * 10^ndigits] rounded to an integer, for [|x| = m * 2^e]. *)
Definition scaled (m : positive) (e : Z) (ndigits : Z) : Z :=
  match e with
  | Zneg k => Zrne (Zpos m * 10 ^ ndigits) (2 ^ Zpos k)
  | _ => (Zpos m * 2 ^ e * 10 ^ ndigits)%Z
  end.

(** [round(x, ndigits)] for [0 <= ndigits]: the exact binary value of [x] is
    rounded to [ndigits] decimals, ties to even, and the decimal is
    converted back to the nearest float.  NaN, the infinities and the zeros
    round to themselves, and a result that rounds to zero keeps the sign
    of [x]. *)
Definition round (x : float) (ndigits : Z) : float :=
  match Prim2SF x with
  | S754_finite s m e =>
      match scaled m e ndigits with
      | Zpos n =>
          SF2Prim (SF64div (S754_finite s n 0)
                           (S754_finite false (Z.to_pos (10 ^ ndigits)) 0))
      | _ => if s then neg_zero else zero
      end
  | _ => x
  end.

End Py.

Import Py.

Notation "x <- c1 ;; c2" := (bind c1 (fun x => c2))
  (at level 61, c1 at next level, right associativity).

Open Scope float_scope.

(** ** The model: calibration constants and derived parameters *)

Record Calibration := {
  x1 : float; x2 : float; x3 : float;
  y1 : float; y2 : float; y3 : float
}.

Record ModelParameters := {
  ml : float; mv : float; al : float; av : float
}.

(** The module-level derivation, for arbitrary calibration constants.  The
    assignments run in source order, so a failing slope stops the import. *)
Definition derive (c : Calibration) : result ModelParameters :=
  ML <- truediv (y2 c - y1 c) (x2 c - x1 c) ;;
  MV <- truediv (y3 c - y2 c) (x3 c - x2 c) ;;
  let AL := y2 c - (ML * x2 c) in
  let AV := y3 c - (MV * x3 c) in
  Ret {| ml := ML; mv := MV; al := AL; av := AV |}.

(** The constants of the source.  [X3 = 30] and [Y2 = 10] are integer
    literals there; the arithmetic converts them to the floats [30.0] and
    [10.0] exactly. *)
Definition X1 := 0.00105.
Definition X2 := 0.0035.
Definition X3 := 30.
Definition Y1 := 0.05.
Definition Y2 := 10.
Definition Y3 := 0.05.

Definition ML := (Y2 - Y1) / (X2 - X1).
Definition MV := (Y3 - Y2) / (X3 - X2).
Definition AL := Y2 - (ML * X2).
Definition AV := Y3 - (MV * X3).

Definition constants : Calibration :=
  {| x1 := X1; x2 := X2; x3 := X3; y1 := Y1; y2 := Y2; y3 := Y3 |}.

Definition parameters : ModelParameters :=
  {| ml := ML; mv := MV; al := AL; av := AV |}.

(** ** The application: module state and request handlers *)

(** The module-level names every handler can read. *)
Record Globals := {
  calibration : Calibration;
  derived : ModelParameters
}.

(** Importing the module: the constants are bound, then the parameters. *)
Definition load (c : Calibration) : result Globals :=
  p <- derive c ;;
  Ret {| calibration := c; derived := p |}.

Definition globals : Globals :=
  {| calibration := constants; derived := parameters |}.

Record PhaseChangeResponse := {
  specific_volume_liquid : float;
  specific_volume_vapor : float
}.

(** What a route hands back to the framework. *)
Inductive http (A : Type) :=
| Response (a : A)
| HTTPException (status_code : Z) (detail : string)
| RequestValidationError.
Arguments Response {A} a.
Arguments HTTPException {A} status_code detail.
Arguments RequestValidationError {A}.

(** The [try] block of [get_phase_change_diagram]. *)
Definition compute_volumes (g : Globals) (pressure : float)
  : result PhaseChangeResponse :=
  liquid <- truediv (pressure - al (derived g)) (ml (derived g)) ;;
  vapor <- truediv (pressure - av (derived g)) (mv (derived g)) ;;
  if negb (isinstance_int_float liquid && isinstance_int_float vapor)
  then Raise (ValueError "Cálculo inválido")
  else Ret {| specific_volume_liquid := round liquid 6;
              specific_volume_vapor := round vapor 6 |}.

(** The handler body with its [except] clauses. *)
Definition get_phase_change_diagram (g : Globals) (pressure : float)
  : http PhaseChangeResponse :=
  match compute_volumes g pressure with
  | Ret r => Response r
  | Raise ZeroDivisionError =>
      HTTPException 400 "Error de división por cero en los cálculos"
  | Raise (ValueError msg) =>
      HTTPException 400 ("Error en los cálculos: " ++ str (ValueError msg))
  | Raise e =>
      HTTPException 500 ("Error interno del servidor: " ++ str e)
  end.

(** [Query(..., ge=0)]: the framework accepts the parameter when
    [pressure >= 0] holds as a float comparison (so NaN is refused). *)
Definition query_ge0 (pressure : float) : bool := (0 <=? pressure).

(** The route as the framework runs it: the query constraint first, the
    handler only for values that pass it. *)
Definition phase_change_diagram (g : Globals) (pressure : float)
  : http PhaseChangeResponse :=
  if query_ge0 pressure then get_phase_change_diagram g pressure
  else RequestValidationError.

(** The payloads of the four routes. *)
Inductive body :=
| RootBody (message version : string) (endpoints : list (string * string))
| HealthBody (status message : string)
| PhaseBody (r : PhaseChangeResponse)
| ConstantsBody (constants : Calibration) (calculated_parameters : ModelParameters).

Definition root : body :=
  RootBody "Phase Change Diagram API" "1.0.0"
    [ ("phase_diagram", "/phase-change-diagram?pressure=<value>");
      ("docs", "/docs");
      ("health", "/health") ]%string.

Definition health_check : body := HealthBody "healthy" "API is running".

Definition get_constants (g : Globals) : body :=
  ConstantsBody (calibration g) (derived g).

Definition http_map {A B : Type} (f : A -> B) (r : http A) : http B :=
  match r with
  | Response a => Response (f a)
  | HTTPException status_code detail => HTTPException status_code detail
  | RequestValidationError => RequestValidationError
  end.

(** A handler runs against the module globals and leaves a (possibly
    changed) module state behind.  The source has no [global] statement and
    no assignment to a module-level name inside a function, so all of its
    handlers are built with [reading]. *)
Definition handler (A : Type) : Type := Globals -> A * Globals.

Definition reading {A : Type} (f : Globals -> A) : handler A :=
  fun g => (f g, g).

Inductive request :=
| GET_root
| GET_health
| GET_phase_change_diagram (pressure : float)
| GET_constants.

Definition dispatch (req : request) : handler (http body) :=
  match req with
  | GET_root => reading (fun _ => Response root)
  | GET_health => reading (fun _ => Response health_check)
  | GET_phase_change_diagram pressure =>
      reading (fun g => http_map PhaseBody (phase_change_diagram g pressure))
  | GET_constants => reading (fun g => Response (get_constants g))
  end.

(** Serving a sequence of requests, threading the module state. *)
Fixpoint run (reqs : list request) (g : Globals) : list (http body) * Globals :=
  match reqs with
  | [] => ([], g)
  | req :: rest =>
      let (resp, g1) := dispatch req g in
      let (resps, g2) := run rest g1 in
      (resp :: resps, g2)
  end.

Close Scope float_scope.
Open Scope Z_scope.

(** ** Reference semantics of binary64 rounding

    Every finite binary64 number is an integer multiple of [2^-1074].  The
    definitions below describe rounding to nearest, ties to even, on such
    exact values; the theorems relate the operations of [SpecFloat] to them. *)

(** The value of a finite float in units of [2^-1074]. *)
Definition units (m : positive) (e : Z) : Z := Zpos m * 2 ^ (e + 1074).

(** A total order-preserving embedding of the non-NaN floats in [Z]: signed
    units for finite values, with the infinities beyond every finite one. *)
Definition rank (x : spec_float) : Z :=
  match x with
  | S754_zero _ => 0
  | S754_nan => 0
  | S754_infinity s => if s then - 2 ^ 2098 else 2 ^ 2098
  | S754_finite s m e => if s then - units m e else units m e
  end.

Definition not_nan (x : spec_float) : Prop := x <> S754_nan.

Definition fin (x : spec_float) : Prop :=
  match x with
  | S754_zero _ | S754_finite _ _ _ => True
  | _ => False
  end.

(** The shift record of the exact value [N / D] at level [j]: the integer
    part of [N / (D * 2^j)], the next bit, and whether anything is left. *)
Definition code (N D j : Z) : shr_record :=
  let E := D * 2 ^ j in
  {| shr_m := N / E; shr_r := Z.odd ((2 * N) / E);
     shr_s := negb ((2 * N) mod E =? 0) |}.

(** The level at which [N / D] (in units) is rounded: zero in the subnormal
    range, otherwise the one that leaves 53 bits. *)
Definition lev (N D : Z) : Z := Z.max (Zdigits2 (N / D) - 53) 0.

(** [N / D] rounded to the binary64 grid, in units. *)
Definition RV (N D : Z) : Z := Zrne N (D * 2 ^ lev N D) * 2 ^ lev N D.

(** The float with sign [s] and magnitude [v] units, overflowing to the
    infinity of that sign. *)
Definition mk (s : bool) (v : Z) : spec_float :=
  match v with
  | Zpos p =>
      let k := Z.max (Zpos (digits2_pos p) - 53) 0 in
      if k <=? 2045 then S754_finite s (Z.to_pos (v / 2 ^ k)) (k - 1074)
      else S754_infinity s
  | _ => S754_zero s
  end.

(** The rank of [mk false v]. *)
Definition grid (v : Z) : Z :=
  match v with
  | Zpos p =>
      let k := Z.max (Zpos (digits2_pos p) - 53) 0 in
      if k <=? 2045 then v / 2 ^ k * 2 ^ k else 2 ^ 2098
  | _ => 0
  end.

(** The float nearest to the signed integer [z] units. *)
Definition ofZ (z : Z) : spec_float :=
  match z with
  | Z0 => S754_zero false
  | Zpos _ => mk false (RV z 1)
  | Zneg _ => mk true (RV (- z) 1)
  end.

(** Odd extension of a function on the non-negative integers. *)
Definition oddext (g : Z -> Z) (z : Z) : Z := if 0 <=? z then g z else - g (- z).

(** The three arithmetic steps of the handler, on magnitudes in units:
    a rounded difference, a quotient by the constant [mc * 2^ec], and
    [round(_, nd)]. *)
Definition gsub (z : Z) : Z := grid (RV z 1).

Definition gdiv (ec : Z) (mc : positive) (u : Z) : Z :=
  grid (RV (u * 2 ^ (- ec)) (Zpos mc)).

Definition ground (nd : Z) (u : Z) : Z :=
  grid (RV (Zrne (u * 10 ^ nd) (2 ^ 1074) * 2 ^ 1074) (10 ^ nd)).

(** [Py.round] on specification floats. *)
Definition SFround (nd : Z) (x : spec_float) : spec_float :=
  match x with
  | S754_finite s m e =>
      match scaled m e nd with
      | Zpos n =>
          SF64div (S754_finite s n 0) (S754_finite false (Z.to_pos (10 ^ nd)) 0)
      | _ => S754_zero s
      end
  | _ => x
  end.

(** * Theorems *)

(** ** Binary digits and shifts *)

(** [digits2_pos m] is the number of binary digits of [m]. *)
Lemma digits2_pos_bounds (m : positive) :
  2 ^ (Zpos (digits2_pos m) - 1) <= Zpos m < 2 ^ Zpos (digits2_pos m).
Proof.
  induction m as [m IH | m IH |].
  - cbn [digits2_pos]. rewrite Pos2Z.inj_succ.
    replace (Z.succ (Zpos (digits2_pos m)) - 1) with (Zpos (digits2_pos m) - 1 + 1) by lia.
    rewrite Z.pow_succ_r by lia.
    rewrite Z.pow_add_r by lia.
    change (2 ^ 1) with 2. lia.
  - cbn [digits2_pos]. rewrite Pos2Z.inj_succ.
    replace (Z.succ (Zpos (digits2_pos m)) - 1) with (Zpos (digits2_pos m) - 1 + 1) by lia.
    rewrite Z.pow_succ_r by lia.
    rewrite Z.pow_add_r by lia.
    change (2 ^ 1) with 2. lia.
  - cbn. lia.
Qed.

Lemma iter_pos_swap {A} (f : A -> A) (p : positive) (x : A) :
  iter_pos f p (f x) = f (iter_pos f p x).
Proof.
  revert x. induction p as [p IH | p IH |]; intros x; cbn [iter_pos].
  - now rewrite !IH.
  - now rewrite !IH.
  - reflexivity.
Qed.

Lemma iter_pos_succ {A} (f : A -> A) (p : positive) (x : A) :
  iter_pos f (Pos.succ p) x = f (iter_pos f p x).
Proof.
  revert x. induction p as [p IH | p IH |]; intros x; cbn [iter_pos Pos.succ].
  - rewrite !IH. now rewrite !iter_pos_swap.
  - now rewrite !iter_pos_swap.
  - reflexivity.
Qed.

(** One right shift of a record moves the exact value to the next level. *)
Lemma shr_1_nonneg (m : Z) (r s : bool) : 0 <= m ->
  shr_1 {| shr_m := m; shr_r := r; shr_s := s |} =
  {| shr_m := m / 2; shr_r := Z.odd m; shr_s := r || s |}.
Proof.
  intros Hm. destruct m as [| p | p]; [reflexivity | | lia].
  destruct p as [p | p |]; cbn [shr_1].
  - f_equal. rewrite Pos2Z.inj_xI. apply Z.div_unique with (r := 1); lia.
  - f_equal. rewrite Pos2Z.inj_xO. apply Z.div_unique with (r := 0); lia.
  - reflexivity.
Qed.

Lemma code_shr_1 (N D j : Z) : 0 <= N -> 0 < D -> 0 <= j ->
  shr_1 (code N D j) = code N D (j + 1).
Proof.
  intros HN HD Hj. unfold code.
  assert (HE : 0 < D * 2 ^ j) by (apply Z.mul_pos_pos; [lia | apply Z.pow_pos_nonneg; lia]).
  rewrite shr_1_nonneg by (apply Z.div_pos; lia).
  rewrite Z.pow_add_r by lia. change (2 ^ 1) with 2.
  set (E := D * 2 ^ j) in *.
  replace (D * (2 ^ j * 2)) with (2 * E) by (unfold E; ring).
  f_equal.
  - rewrite Z.mul_comm. now rewrite Z.div_div by lia.
  - rewrite Z.div_mul_cancel_l by lia. reflexivity.
  - rewrite Z.mul_mod_distr_l by lia.
    pose proof (Z.div_mod N E ltac:(lia)) as H3.
    pose proof (Z.mod_pos_bound N E HE) as H4.
    set (q := N / E) in *. set (v := N mod E) in *.
    destruct (Z_lt_ge_dec (2 * v) E) as [Hlt | Hge].
    + rewrite <- (Z.div_unique (2 * N) E (2 * q) (2 * v)) by lia.
      rewrite <- (Z.mod_unique (2 * N) E (2 * q) (2 * v)) by lia.
      rewrite Z.odd_mul. cbn [Z.odd orb andb].
      reflexivity.
    + rewrite <- (Z.div_unique (2 * N) E (2 * q + 1) (2 * v - E)) by lia.
      rewrite <- (Z.mod_unique (2 * N) E (2 * q + 1) (2 * v - E)) by lia.
      replace (Z.odd (2 * q + 1)) with true
        by (rewrite Z.add_comm, Z.odd_add_mul_2; reflexivity).
      cbn [orb].
      destruct (Z.eqb_spec (2 * v) 0); [lia | reflexivity].
Qed.

(** [n] right shifts of the record at level [j] give the record at level
    [j + n]. *)
Lemma code_iter (N D j : Z) (p : positive) : 0 <= N -> 0 < D -> 0 <= j ->
  iter_pos shr_1 p (code N D j) = code N D (j + Zpos p).
Proof.
  intros HN HD Hj. induction p as [| p IH] using Pos.peano_ind.
  - cbn [iter_pos]. now apply code_shr_1.
  - rewrite iter_pos_succ, IH, code_shr_1 by lia.
    f_equal. lia.
Qed.

(** Rounding a record to nearest-even is [Zrne] on the exact value. *)
Lemma rne_code (N D j : Z) : 0 <= N -> 0 < D -> 0 <= j ->
  round_nearest_even (shr_m (code N D j)) (loc_of_shr_record (code N D j))
  = Zrne N (D * 2 ^ j).
Proof.
  intros HN HD Hj. unfold code, Zrne.
  assert (HE : 0 < D * 2 ^ j) by (apply Z.mul_pos_pos; [lia | apply Z.pow_pos_nonneg; lia]).
  set (E := D * 2 ^ j) in *.
  pose proof (Z.div_mod N E ltac:(lia)) as H3.
  pose proof (Z.mod_pos_bound N E HE) as H4.
  set (q := N / E) in *. set (v := N mod E) in *.
  cbn [shr_m loc_of_shr_record].
  destruct (Z_lt_ge_dec (2 * v) E) as [Hlt | Hge].
  - rewrite <- (Z.div_unique (2 * N) E (2 * q) (2 * v)) by lia.
    rewrite <- (Z.mod_unique (2 * N) E (2 * q) (2 * v)) by lia.
    rewrite Z.odd_mul. cbn [Z.odd orb andb].
    replace (2 * v ?= E) with Lt by (symmetry; apply Z.compare_lt_iff; lia).
    destruct (negb (2 * v =? 0)); reflexivity.
  - rewrite <- (Z.div_unique (2 * N) E (2 * q + 1) (2 * v - E)) by lia.
    rewrite <- (Z.mod_unique (2 * N) E (2 * q + 1) (2 * v - E)) by lia.
    replace (Z.odd (2 * q + 1)) with true
      by (rewrite Z.add_comm, Z.odd_add_mul_2; reflexivity).
    destruct (Z.eqb_spec (2 * v - E) 0) as [Heq | Hne]; cbn [negb round_nearest_even].
    + replace (2 * v ?= E) with Eq by (symmetry; apply Z.compare_eq_iff; lia).
      reflexivity.
    + replace (2 * v ?= E) with Gt by (symmetry; apply Z.compare_gt_iff; lia).
      reflexivity.
Qed.

Lemma Zrne_bounds (n d : Z) : 0 < d -> n / d <= Zrne n d <= n / d + 1.
Proof.
  intros Hd. unfold Zrne.
  destruct (2 * (n mod d) ?= d); [destruct (Z.even (n / d)) | |]; lia.
Qed.

Lemma Zdigits2_bounds (a : Z) : 0 < a ->
  2 ^ (Zdigits2 a - 1) <= a < 2 ^ Zdigits2 a.
Proof.
  intros Ha. destruct a as [| p | p]; try lia.
  cbn [Zdigits2]. apply digits2_pos_bounds.
Qed.

Lemma Zdigits2_pos (a : Z) : 0 < a -> 0 < Zdigits2 a.
Proof. intros Ha. destruct a; try lia. cbn. lia. Qed.

Lemma Zdigits2_unique (a d : Z) :
  2 ^ (d - 1) <= a < 2 ^ d -> 0 < d -> Zdigits2 a = d.
Proof.
  intros [Hlo Hhi] Hd.
  assert (Ha : 0 < a).
  { apply Z.lt_le_trans with (2 := Hlo). apply Z.pow_pos_nonneg; lia. }
  pose proof (Zdigits2_bounds a Ha) as [Hlo' Hhi'].
  pose proof (Zdigits2_pos a Ha) as Hp.
  destruct (Z.lt_trichotomy (Zdigits2 a) d) as [Hc | [Hc | Hc]]; [exfalso | exact Hc | exfalso].
  - assert (2 ^ Zdigits2 a <= 2 ^ (d - 1)) by (apply Z.pow_le_mono_r; lia). lia.
  - assert (2 ^ d <= 2 ^ (Zdigits2 a - 1)) by (apply Z.pow_le_mono_r; lia). lia.
Qed.

Lemma Zdigits2_le (a d : Z) : 0 <= a -> 0 <= d -> (Zdigits2 a <= d <-> a < 2 ^ d).
Proof.
  intros Ha Hd. destruct (Z.eq_dec a 0) as [-> | Hne].
  - cbn [Zdigits2]. split; intros _; [apply Z.pow_pos_nonneg; lia | lia].
  - pose proof (Zdigits2_bounds a ltac:(lia)) as [Hlo Hhi].
    pose proof (Zdigits2_pos a ltac:(lia)) as Hp.
    split; intros H.
    + apply Z.lt_le_trans with (1 := Hhi). apply Z.pow_le_mono_r; lia.
    + destruct (Z_le_gt_dec (Zdigits2 a) d) as [Hc | Hc]; [exact Hc | exfalso].
      assert (2 ^ d <= 2 ^ (Zdigits2 a - 1)) by (apply Z.pow_le_mono_r; lia). lia.
Qed.

Lemma Zdigits2_shift (a j : Z) : 0 <= j -> 0 < a / 2 ^ j ->
  Zdigits2 (a / 2 ^ j) = Zdigits2 a - j.
Proof.
  intros Hj Hq.
  assert (H2j : 0 < 2 ^ j) by (apply Z.pow_pos_nonneg; lia).
  assert (Ha : 0 < a).
  { destruct (Z_lt_le_dec 0 a) as [H | H]; [exact H | exfalso].
    assert (a / 2 ^ j <= 0) by (apply Z.div_le_upper_bound; lia). lia. }
  pose proof (Zdigits2_bounds a Ha) as [Hlo Hhi].
  pose proof (Zdigits2_bounds _ Hq) as [Hlo' Hhi'].
  pose proof (Zdigits2_pos _ Hq) as Hp.
  pose proof (Zdigits2_pos _ Ha) as Hpa.
  pose proof (Z.div_mod a (2 ^ j) ltac:(lia)) as Hdm.
  pose proof (Z.mod_pos_bound a (2 ^ j) H2j) as Hmb.
  set (q := a / 2 ^ j) in *. set (d := Zdigits2 q) in *.
  assert (Hu : Zdigits2 a = d + j); [| lia].
  apply Zdigits2_unique; [| lia].
  replace (d + j - 1) with (d - 1 + j) by lia.
  rewrite !Z.pow_add_r by lia.
  split; nia.
Qed.

(** ** The rounding of [SpecFloat] against the reference *)

Lemma fexp64 (x : Z) : fexp prec emax x = Z.max (x - 53) (-1074).
Proof. reflexivity. Qed.

Lemma shr_m_of_loc (m : Z) (l : location) : shr_m (shr_record_of_loc m l) = m.
Proof. destruct l as [| []]; reflexivity. Qed.

Lemma lev_nonneg (N D : Z) : 0 <= lev N D.
Proof. unfold lev. lia. Qed.

Lemma lev_quotient (N D : Z) : 0 <= N -> 0 < D ->
  let q := N / (D * 2 ^ lev N D) in
  0 <= q < 2 ^ 53 /\ (0 < lev N D -> 2 ^ 52 <= q).
Proof.
  intros HN HD q.
  pose proof (lev_nonneg N D) as Hk.
  assert (H2k : 0 < 2 ^ lev N D) by (apply Z.pow_pos_nonneg; lia).
  assert (HA : 0 <= N / D) by (apply Z.div_pos; lia).
  assert (Hq : q = N / D / 2 ^ lev N D) by (unfold q; rewrite Z.div_div by lia; reflexivity).
  assert (Hd : Zdigits2 (N / D) <= 53 + lev N D) by (unfold lev; lia).
  apply Zdigits2_le in Hd; [| lia | lia].
  rewrite Z.pow_add_r in Hd by lia.
  split; [split |].
  - rewrite Hq. apply Z.div_pos; lia.
  - rewrite Hq. apply Z.div_lt_upper_bound; lia.
  - intros Hpos. rewrite Hq. apply Z.div_le_lower_bound; [lia |].
    assert (Hk' : lev N D = Zdigits2 (N / D) - 53) by (unfold lev in *; lia).
    assert (HApos : 0 < N / D).
    { destruct (Z.eq_dec (N / D) 0) as [H0 | H0]; [| lia].
      rewrite H0 in Hk'. cbn in Hk'. lia. }
    pose proof (Zdigits2_bounds _ HApos) as [Hlo _].
    replace (Zdigits2 (N / D) - 1) with (lev N D + 52) in Hlo by lia.
    rewrite Z.pow_add_r in Hlo by lia. lia.
Qed.

(** The rounding of [SpecFloat] computes the reference: when the triple
    [(mx, e, lx)] describes the exact value [N / D] units at exponent [e] and
    carries enough digits, [binary_round_aux] returns the float of
    [RV N D] units. *)
Lemma binary_round_aux_correct (s : bool) (N D e mx : Z) (lx : location) :
  0 <= N -> 0 < D -> -1074 <= e ->
  shr_record_of_loc mx lx = code N D (e + 1074) ->
  (e = -1074 \/ 2 ^ 52 <= mx) ->
  binary_round_aux prec emax s mx e lx = mk s (RV N D).
Proof.
  intros HN HD He Hcode Hdig.
  assert (Hmx : mx = N / (D * 2 ^ (e + 1074))).
  { rewrite <- (shr_m_of_loc mx lx), Hcode. reflexivity. }
  assert (H2j : 0 < 2 ^ (e + 1074)) by (apply Z.pow_pos_nonneg; lia).
  assert (Hmx' : mx = N / D / 2 ^ (e + 1074)) by (rewrite Z.div_div by lia; exact Hmx).
  assert (HA : 0 <= N / D) by (apply Z.div_pos; lia).
  assert (Hmx0 : 0 <= mx) by (rewrite Hmx'; apply Z.div_pos; lia).
  (* the first shift lands on the level of the reference *)
  assert (Hlev : Z.max (Zdigits2 mx + e - 53) (-1074) - e = lev N D - (e + 1074)
                 /\ e + 1074 <= lev N D).
  { unfold lev. destruct Hdig as [-> | Hbig].
    - change (-1074 + 1074) with 0 in Hmx'. rewrite Z.pow_0_r, Z.div_1_r in Hmx'.
      subst mx. lia.
    - assert (Hq : 0 < N / D / 2 ^ (e + 1074)).
      { rewrite <- Hmx'. apply Z.lt_le_trans with (2 := Hbig). apply Z.pow_pos_nonneg; lia. }
      pose proof (Zdigits2_shift (N / D) (e + 1074) ltac:(lia) Hq) as Hs.
      rewrite <- Hmx' in Hs.
      assert (53 <= Zdigits2 mx).
      { destruct (Z_le_gt_dec 53 (Zdigits2 mx)) as [H | H]; [exact H | exfalso].
        assert (Zdigits2 mx <= 52) as H' by lia.
        apply Zdigits2_le in H'; lia. }
      lia. }
  destruct Hlev as [Hn Hle].
  pose proof (lev_nonneg N D) as Hk.
  set (k := lev N D) in *.
  unfold binary_round_aux.
  assert (Hs1 : shr_fexp prec emax mx e lx = (code N D k, k - 1074)).
  { unfold shr_fexp. rewrite fexp64, Hn, Hcode. unfold shr.
    destruct (k - (e + 1074)) as [| p | p] eqn:Hp.
    - f_equal; [f_equal |]; lia.
    - rewrite code_iter by lia. f_equal; [f_equal |]; lia.
    - lia. }
  rewrite Hs1.
  rewrite rne_code by lia.
  pose proof (lev_quotient N D HN HD) as [Hqb Hqn]. fold k in Hqb, Hqn.
  assert (HE : 0 < D * 2 ^ k) by (apply Z.mul_pos_pos; [lia | apply Z.pow_pos_nonneg; lia]).
  pose proof (Zrne_bounds N (D * 2 ^ k) HE) as Hrb.
  unfold RV. fold k.
  set (r := Zrne N (D * 2 ^ k)) in *.
  assert (H2k : 0 < 2 ^ k) by (apply Z.pow_pos_nonneg; lia).
  destruct (Z.eq_dec r 0) as [Hr0 | Hr0].
  { (* rounds to zero *)
    rewrite Hr0. unfold shr_fexp. cbn [Zdigits2 shr_record_of_loc].
    rewrite fexp64.
    assert (Hk0 : k = 0) by lia.
    rewrite Hk0. cbn. reflexivity. }
  destruct (Z.eq_dec r (2 ^ 53)) as [Hr53 | Hr53].
  { (* the mantissa overflows to the next binade *)
    rewrite Hr53. unfold shr_fexp. rewrite fexp64.
    replace (Zdigits2 (2 ^ 53)) with 54 by reflexivity.
    replace (Z.max (54 + (k - 1074) - 53) (-1074) - (k - 1074)) with 1 by lia.
    cbn [shr_record_of_loc shr iter_pos].
    rewrite shr_1_nonneg by lia.
    cbn [shr_m].
    change (2 ^ 53 / 2) with (Zpos (2 ^ 52)).
    assert (Hv : 2 ^ 53 * 2 ^ k = 2 ^ (54 + k - 1)).
    { replace (54 + k - 1) with (53 + k) by lia. rewrite Z.pow_add_r by lia. reflexivity. }
    assert (Hvpos : 0 < 2 ^ 53 * 2 ^ k) by lia.
    assert (Hdv : Zdigits2 (2 ^ 53 * 2 ^ k) = 54 + k).
    { apply Zdigits2_unique; [| lia]. rewrite Hv. split; [lia |].
      apply Z.pow_lt_mono_r; lia. }
    unfold mk.
    destruct (2 ^ 53 * 2 ^ k) as [| v | v] eqn:Hveq; try lia.
    cbn [Zdigits2] in Hdv. rewrite Hdv.
    replace (Z.max (54 + k - 53) 0) with (k + 1) by lia.
    replace (k - 1074 + 1 <=? emax - prec) with (k + 1 <=? 2045)
      by (apply Bool.eq_true_iff_eq; rewrite !Z.leb_le; change (emax - prec) with 971; lia).
    destruct (k + 1 <=? 2045); [| reflexivity].
    f_equal; [| lia].
    rewrite <- Hveq. rewrite Z.pow_add_r by lia. change (2 ^ 1) with 2.
    replace (2 ^ 53 * 2 ^ k) with (2 ^ 52 * (2 ^ k * 2)) by (change (2 ^ 53) with (2 ^ 52 * 2); ring).
    rewrite Z.div_mul by lia. reflexivity. }
  (* the ordinary case *)
  assert (Hrpos : 0 < r < 2 ^ 53) by lia.
  assert (Hdr : Zdigits2 r <= 53) by (apply Zdigits2_le; lia).
  assert (Hdr' : 0 < k -> Zdigits2 r = 53).
  { intros Hkp. apply Zdigits2_unique; [| lia]. specialize (Hqn Hkp). change (53 - 1) with 52. lia. }
  unfold shr_fexp. rewrite fexp64.
  assert (Hn2 : Z.max (Zdigits2 r + (k - 1074) - 53) (-1074) - (k - 1074) <= 0).
  { destruct (Z.eq_dec k 0) as [Hk0 | Hk0]; [lia |]. rewrite Hdr' by lia. lia. }
  cbn [shr_record_of_loc]. unfold shr.
  destruct (Z.max (Zdigits2 r + (k - 1074) - 53) (-1074) - (k - 1074)) as [| p | p] eqn:Hp;
    [| lia |]; cbn [shr_m].
  all: assert (Hvpos : 0 < r * 2 ^ k) by (apply Z.mul_pos_pos; lia).
  all: assert (Hdv : Zdigits2 (r * 2 ^ k) = Zdigits2 r + k)
         by (pose proof (Zdigits2_bounds r ltac:(lia)) as [Hlo Hhi];
             pose proof (Zdigits2_pos r ltac:(lia));
             apply Zdigits2_unique; [| lia];
             replace (Zdigits2 r + k - 1) with (Zdigits2 r - 1 + k) by lia;
             rewrite !Z.pow_add_r by lia; split; nia).
  all: unfold mk.
  all: destruct r as [| rp | rp]; try lia.
  all: destruct (Z.pos rp * 2 ^ k) as [| v | v] eqn:Hveq; try lia.
  all: cbn [Zdigits2] in Hdv; rewrite Hdv.
  all: replace (Z.max (Z.pos (digits2_pos rp) + k - 53) 0) with k
         by (destruct (Z.eq_dec k 0) as [Hk0 | Hk0];
             [cbn [Zdigits2] in Hdr; lia | cbn [Zdigits2] in Hdr'; rewrite Hdr' by lia; lia]).
  all: replace (k - 1074 <=? emax - prec) with (k <=? 2045)
         by (apply Bool.eq_true_iff_eq; rewrite !Z.leb_le; change (emax - prec) with 971; lia).
  all: destruct (k <=? 2045); [| reflexivity].
  all: f_equal.
  all: rewrite <- Hveq, Z.div_mul by lia; reflexivity.
Qed.

(** ** Monotonicity of the reference rounding *)

(** [Zrne n d] is within one half of [n / d], and even at a tie. *)
Lemma Zrne_spec (n d : Z) : 0 < d ->
  (2 * Zrne n d - 1) * d <= 2 * n <= (2 * Zrne n d + 1) * d
  /\ (2 * n = (2 * Zrne n d - 1) * d -> Z.even (Zrne n d) = true)
  /\ (2 * n = (2 * Zrne n d + 1) * d -> Z.even (Zrne n d) = true).
Proof.
  intros Hd. unfold Zrne.
  pose proof (Z.div_mod n d ltac:(lia)) as H1.
  pose proof (Z.mod_pos_bound n d Hd) as H2.
  set (q := n / d) in *. set (v := n mod d) in *.
  destruct (Z.compare_spec (2 * v) d) as [He | Hl | Hg].
  - destruct (Z.even q) eqn:Hev.
    + split; [split | split]; try nia; intros _; exact Hev.
    + split; [split | split]; try nia.
      intros _. rewrite Z.even_add, Hev. reflexivity.
  - split; [split | split]; try nia; intros Habs; exfalso; nia.
  - split; [split | split]; try nia; intros Habs; exfalso; nia.
Qed.

(** Rounding to the nearest integer is monotone in the rational [n / d]. *)
Lemma Zrne_mono (n1 d1 n2 d2 : Z) : 0 < d1 -> 0 < d2 ->
  n1 * d2 <= n2 * d1 -> Zrne n1 d1 <= Zrne n2 d2.
Proof.
  intros Hd1 Hd2 Hle.
  destruct (Zrne_spec n1 d1 Hd1) as [[Hlo1 _] [Hev1 _]].
  destruct (Zrne_spec n2 d2 Hd2) as [[_ Hhi2] [_ Hev2]].
  set (r1 := Zrne n1 d1) in *. set (r2 := Zrne n2 d2) in *.
  destruct (Z_le_gt_dec r1 r2) as [H | H]; [exact H | exfalso].
  assert (Hp : 0 < d1 * d2) by (apply Z.mul_pos_pos; lia).
  assert (Ha : (2 * r1 - 1) * (d1 * d2) <= 2 * (n1 * d2)) by nia.
  assert (Hb : 2 * (n2 * d1) <= (2 * r2 + 1) * (d1 * d2)) by nia.
  assert (Hc : (2 * r1 - 1) * (d1 * d2) <= (2 * r2 + 1) * (d1 * d2)) by lia.
  assert (Hr : r1 = r2 + 1) by nia.
  assert (He1 : 2 * n1 = (2 * r1 - 1) * d1) by nia.
  assert (He2 : 2 * n2 = (2 * r2 + 1) * d2) by nia.
  specialize (Hev1 He1). specialize (Hev2 He2).
  rewrite Hr, Z.even_add, Hev2 in Hev1. discriminate.
Qed.

Lemma div_rat_mono (n1 d1 n2 d2 : Z) : 0 < d1 -> 0 < d2 ->
  n1 * d2 <= n2 * d1 -> n1 / d1 <= n2 / d2.
Proof.
  intros Hd1 Hd2 Hle.
  apply Z.div_le_lower_bound; [lia |].
  pose proof (Z.div_mod n1 d1 ltac:(lia)) as H1.
  pose proof (Z.mod_pos_bound n1 d1 Hd1) as H2.
  nia.
Qed.

Lemma Zdigits2_mono (a b : Z) : 0 <= a <= b -> Zdigits2 a <= Zdigits2 b.
Proof.
  intros [Ha Hab].
  destruct (Z.eq_dec b 0) as [-> | Hb].
  - replace a with 0 by lia. lia.
  - pose proof (Zdigits2_bounds b ltac:(lia)) as [_ Hhi].
    pose proof (Zdigits2_pos b ltac:(lia)).
    apply Zdigits2_le; lia.
Qed.

Lemma lev_mono (N1 D1 N2 D2 : Z) : 0 <= N1 -> 0 < D1 -> 0 < D2 ->
  N1 * D2 <= N2 * D1 -> lev N1 D1 <= lev N2 D2.
Proof.
  intros HN1 HD1 HD2 Hle. unfold lev.
  pose proof (div_rat_mono _ _ _ _ HD1 HD2 Hle).
  assert (0 <= N1 / D1) by (apply Z.div_pos; lia).
  pose proof (Zdigits2_mono (N1 / D1) (N2 / D2) ltac:(lia)). lia.
Qed.

(** The reference rounding is monotone in the rational [N / D]. *)
Lemma RV_mono (N1 D1 N2 D2 : Z) : 0 <= N1 -> 0 < D1 -> 0 < D2 ->
  N1 * D2 <= N2 * D1 -> RV N1 D1 <= RV N2 D2.
Proof.
  intros HN1 HD1 HD2 Hle.
  assert (HN2 : 0 <= N2) by nia.
  pose proof (lev_mono _ _ _ _ HN1 HD1 HD2 Hle) as Hk.
  pose proof (lev_nonneg N1 D1) as Hk1.
  pose proof (lev_quotient N1 D1 HN1 HD1) as [Hq1 _].
  pose proof (lev_quotient N2 D2 HN2 HD2) as [Hq2 Hq2'].
  unfold RV.
  set (k1 := lev N1 D1) in *. set (k2 := lev N2 D2) in *.
  assert (H2k1 : 0 < 2 ^ k1) by (apply Z.pow_pos_nonneg; lia).
  assert (H2k2 : 0 < 2 ^ k2) by (apply Z.pow_pos_nonneg; lia).
  assert (HE1 : 0 < D1 * 2 ^ k1) by (apply Z.mul_pos_pos; lia).
  assert (HE2 : 0 < D2 * 2 ^ k2) by (apply Z.mul_pos_pos; lia).
  destruct (Z.eq_dec k1 k2) as [Heq | Hne].
  - rewrite <- Heq in *.
    apply Z.mul_le_mono_nonneg_r; [lia |].
    apply Zrne_mono; try lia. nia.
  - pose proof (Zrne_bounds N1 _ HE1) as Hb1.
    pose proof (Zrne_bounds N2 _ HE2) as Hb2.
    specialize (Hq2' ltac:(lia)).
    assert (Hp : 2 ^ 53 * 2 ^ k1 <= 2 ^ 52 * 2 ^ k2).
    { rewrite <- !Z.pow_add_r by lia. apply Z.pow_le_mono_r; lia. }
    nia.
Qed.

Lemma mk_quotient_pos (v k : Z) : 0 < v -> k = Z.max (Zdigits2 v - 53) 0 ->
  0 < v / 2 ^ k < 2 ^ 53 /\ (0 < k -> 2 ^ 52 <= v / 2 ^ k).
Proof.
  intros Hv Hk.
  pose proof (Zdigits2_bounds v Hv) as [Hlo Hhi].
  pose proof (Zdigits2_pos v Hv) as Hd.
  assert (Hk0 : 0 <= k) by lia.
  assert (H2k : 0 < 2 ^ k) by (apply Z.pow_pos_nonneg; lia).
  assert (Hup : v < 2 ^ k * 2 ^ 53).
  { rewrite <- Z.pow_add_r by lia. apply Z.lt_le_trans with (1 := Hhi).
    apply Z.pow_le_mono_r; lia. }
  assert (Hdn : 2 ^ k * 1 <= v).
  { rewrite Z.mul_1_r. apply Z.le_trans with (2 := Hlo). apply Z.pow_le_mono_r; lia. }
  split; [split |].
  - apply Z.lt_le_trans with (m := 1); [lia |]. apply Z.div_le_lower_bound; lia.
  - apply Z.div_lt_upper_bound; lia.
  - intros Hkp. apply Z.div_le_lower_bound; [lia |].
    rewrite <- Z.pow_add_r by lia. apply Z.le_trans with (2 := Hlo).
    apply Z.pow_le_mono_r; lia.
Qed.

Lemma rank_mk (s : bool) (v : Z) :
  rank (mk s v) = if s then - grid v else grid v.
Proof.
  unfold mk, grid. destruct v as [| p | p]; cbn [rank]; try (destruct s; reflexivity).
  set (k := Z.max (Zpos (digits2_pos p) - 53) 0).
  destruct (k <=? 2045); cbn [rank]; [| reflexivity].
  pose proof (mk_quotient_pos (Zpos p) k ltac:(lia) eq_refl) as [Hq _].
  unfold units. rewrite Z2Pos.id by lia.
  replace (k - 1074 + 1074) with k by lia. reflexivity.
Qed.

Lemma grid_bound (v : Z) : 0 <= grid v <= 2 ^ 2098.
Proof.
  unfold grid. destruct v as [| p | p]; try (cbn; lia).
  set (k := Z.max (Zpos (digits2_pos p) - 53) 0).
  destruct (Z.leb_spec k 2045) as [Hk | Hk]; [| lia].
  pose proof (mk_quotient_pos (Zpos p) k ltac:(lia) eq_refl) as [Hq _].
  assert (Hk0 : 0 <= k) by (unfold k; lia).
  assert (H2k : 0 < 2 ^ k) by (apply Z.pow_pos_nonneg; lia).
  assert (2 ^ 53 * 2 ^ k <= 2 ^ 2098).
  { rewrite <- Z.pow_add_r by lia. apply Z.pow_le_mono_r; lia. }
  nia.
Qed.

Lemma grid_mono (v1 v2 : Z) : v1 <= v2 -> grid v1 <= grid v2.
Proof.
  intros Hle.
  destruct v1 as [| p1 | p1].
  - apply grid_bound.
  - destruct v2 as [| p2 | p2]; try lia.
    pose proof (grid_bound (Zpos p1)) as Hb1.
    unfold grid in *.
    pose proof (Zdigits2_mono (Zpos p1) (Zpos p2) ltac:(lia)) as Hd.
    cbn [Zdigits2] in Hd.
    set (k1 := Z.max (Zpos (digits2_pos p1) - 53) 0) in *.
    set (k2 := Z.max (Zpos (digits2_pos p2) - 53) 0) in *.
    assert (Hk : k1 <= k2) by (unfold k1, k2; lia).
    destruct (Z.leb_spec k2 2045) as [Hk2 | Hk2]; [| lia].
    destruct (Z.leb_spec k1 2045) as [Hk1 | Hk1]; [| lia].
    pose proof (mk_quotient_pos (Zpos p1) k1 ltac:(lia) eq_refl) as [Hq1 _].
    pose proof (mk_quotient_pos (Zpos p2) k2 ltac:(lia) eq_refl) as [Hq2 Hq2'].
    assert (Hk0 : 0 <= k1) by (unfold k1; lia).
    assert (H2k1 : 0 < 2 ^ k1) by (apply Z.pow_pos_nonneg; lia).
    assert (H2k2 : 0 < 2 ^ k2) by (apply Z.pow_pos_nonneg; lia).
    destruct (Z.eq_dec k1 k2) as [Heq | Hne].
    + rewrite <- Heq in *. apply Z.mul_le_mono_nonneg_r; [lia |].
      apply Z.div_le_mono; lia.
    + specialize (Hq2' ltac:(lia)).
      assert (Hp : 2 ^ 53 * 2 ^ k1 <= 2 ^ 52 * 2 ^ k2).
      { rewrite <- !Z.pow_add_r by lia. apply Z.pow_le_mono_r; lia. }
      nia.
  - change (grid (Z.neg p1)) with 0. apply grid_bound.
Qed.

(** Floats built by [mk] are canonical binary64 values. *)
Lemma mk_valid (s : bool) (v : Z) : valid_binary (mk s v) = true.
Proof.
  unfold mk. destruct v as [| p | p]; try reflexivity.
  set (k := Z.max (Zpos (digits2_pos p) - 53) 0).
  destruct (Z.leb_spec k 2045) as [Hk | Hk]; [| reflexivity].
  pose proof (mk_quotient_pos (Zpos p) k ltac:(lia) eq_refl) as [Hq Hq'].
  cbn [valid_binary]. unfold bounded, canonical_mantissa.
  rewrite fexp64.
  assert (Hk0 : 0 <= k) by (unfold k; lia).
  assert (Hd : Zdigits2 (Zpos p / 2 ^ k) <= 53) by (apply Zdigits2_le; lia).
  assert (Hd' : 0 < k -> Zdigits2 (Zpos p / 2 ^ k) = 53).
  { intros Hkp. apply Zdigits2_unique; [| lia]. specialize (Hq' Hkp).
    change (53 - 1) with 52. lia. }
  destruct (Zpos p / 2 ^ k) as [| q | q] eqn:Hqe; try lia.
  cbn [Z.to_pos]. cbn [Zdigits2] in Hd, Hd'.
  apply andb_true_intro. split.
  - apply Z.eqb_eq. destruct (Z.eq_dec k 0) as [Hk00 | Hk00]; [lia |].
    rewrite Hd' by lia. lia.
  - apply Z.leb_le. change (emax - prec) with 971. lia.
Qed.

(** ** Comparison of valid floats through their ranks *)

(** The shape of a canonical finite binary64 value. *)
Lemma valid_finite (s : bool) (m : positive) (e : Z) :
  valid_binary (S754_finite s m e) = true ->
  -1074 <= e <= 971 /\ Zpos (digits2_pos m) <= 53
  /\ (-1074 < e -> Zpos (digits2_pos m) = 53).
Proof.
  cbn [SpecFloat.valid_binary]. unfold bounded, canonical_mantissa.
  rewrite fexp64. intros H. apply andb_prop in H as [H1 H2].
  apply Z.eqb_eq in H1. apply Z.leb_le in H2.
  change (emax - prec) with 971 in H2. lia.
Qed.

Lemma units_bounds (s : bool) (m : positive) (e : Z) :
  valid_binary (S754_finite s m e) = true ->
  0 < units m e < 2 ^ 2098
  /\ units m e < 2 ^ (53 + (e + 1074))
  /\ (-1074 < e -> 2 ^ (52 + (e + 1074)) <= units m e).
Proof.
  intros Hv. apply valid_finite in Hv as [He [Hd Hn]].
  pose proof (digits2_pos_bounds m) as [Hlo Hhi].
  assert (H2e : 0 < 2 ^ (e + 1074)) by (apply Z.pow_pos_nonneg; lia).
  assert (Hm : Zpos m < 2 ^ 53).
  { apply Z.lt_le_trans with (1 := Hhi). apply Z.pow_le_mono_r; lia. }
  assert (Hu : units m e < 2 ^ (53 + (e + 1074))).
  { unfold units. rewrite (Z.pow_add_r 2 53 (e + 1074)) by lia.
    apply Z.mul_lt_mono_pos_r; lia. }
  split; [split | split].
  - unfold units. lia.
  - apply Z.lt_le_trans with (1 := Hu). apply Z.pow_le_mono_r; lia.
  - exact Hu.
  - intros Hgt. rewrite (Hn Hgt) in Hlo. change (53 - 1) with 52 in Hlo.
    unfold units. rewrite (Z.pow_add_r 2 52 (e + 1074)) by lia.
    apply Z.mul_le_mono_nonneg_r; lia.
Qed.

Lemma units_compare (s1 s2 : bool) (m1 m2 : positive) (e1 e2 : Z) :
  valid_binary (S754_finite s1 m1 e1) = true ->
  valid_binary (S754_finite s2 m2 e2) = true ->
  (units m1 e1 ?= units m2 e2) =
  match e1 ?= e2 with
  | Lt => Lt
  | Gt => Gt
  | Eq => Pos.compare_cont Eq m1 m2
  end.
Proof.
  intros Hv1 Hv2.
  pose proof (units_bounds _ _ _ Hv1) as [_ [Hu1 Hl1]].
  pose proof (units_bounds _ _ _ Hv2) as [_ [Hu2 Hl2]].
  apply valid_finite in Hv1 as [He1 _]. apply valid_finite in Hv2 as [He2 _].
  destruct (Z.compare_spec e1 e2) as [Heq | Hlt | Hgt].
  - subst e2. unfold units.
    assert (H2e : 0 < 2 ^ (e1 + 1074)) by (apply Z.pow_pos_nonneg; lia).
    change (Pos.compare_cont Eq m1 m2) with (Zpos m1 ?= Zpos m2).
    destruct (Z.compare_spec (Zpos m1) (Zpos m2)) as [H | H | H].
    + rewrite H. apply Z.compare_refl.
    + apply Z.compare_lt_iff. nia.
    + apply Z.compare_gt_iff. nia.
  - apply Z.compare_lt_iff. specialize (Hl2 ltac:(lia)).
    apply Z.lt_le_trans with (1 := Hu1). apply Z.le_trans with (2 := Hl2).
    apply Z.pow_le_mono_r; lia.
  - apply Z.compare_gt_iff. specialize (Hl1 ltac:(lia)).
    apply Z.lt_le_trans with (1 := Hu2). apply Z.le_trans with (2 := Hl1).
    apply Z.pow_le_mono_r; lia.
Qed.

Ltac cmp_solve :=
  f_equal; symmetry;
  first [ apply Z.compare_eq_iff; lia
        | apply Z.compare_lt_iff; lia
        | apply Z.compare_gt_iff; lia ].

(** On canonical non-NaN floats the comparison of [SpecFloat] is the
    comparison of ranks. *)
Lemma SFcompare_rank (x y : spec_float) :
  valid_binary x = true -> valid_binary y = true -> not_nan x -> not_nan y ->
  SFcompare x y = Some (rank x ?= rank y).
Proof.
  intros Hx Hy Nx Ny.
  assert (Hp : 0 < 2 ^ 2098) by (apply Z.pow_pos_nonneg; lia).
  destruct x as [sx | sx | | sx mx ex]; [| | now elim Nx |];
    destruct y as [sy | sy | | sy my ey]; try (now elim Ny); cbn [SFcompare rank].
  - reflexivity.
  - destruct sy; cmp_solve.
  - pose proof (units_bounds _ _ _ Hy) as [Hb _].
    destruct sy; cmp_solve.
  - destruct sx; cmp_solve.
  - destruct sx, sy; cmp_solve.
  - pose proof (units_bounds _ _ _ Hy) as [Hb _].
    destruct sx, sy; cmp_solve.
  - pose proof (units_bounds _ _ _ Hx) as [Hb _].
    destruct sx; cmp_solve.
  - pose proof (units_bounds _ _ _ Hx) as [Hb _].
    destruct sx, sy; cmp_solve.
  - pose proof (units_bounds _ _ _ Hx) as [Hbx _].
    pose proof (units_bounds _ _ _ Hy) as [Hby _].
    pose proof (units_compare _ _ _ _ _ _ Hx Hy) as Hc.
    destruct sx, sy.
    + f_equal. rewrite Z.compare_opp.
      rewrite (Z.compare_antisym (units mx ex) (units my ey)), Hc.
      destruct (ex ?= ey); reflexivity.
    + cmp_solve.
    + cmp_solve.
    + rewrite Hc. reflexivity.
Qed.

Lemma SFleb_rank (x y : spec_float) :
  valid_binary x = true -> valid_binary y = true -> not_nan x -> not_nan y ->
  SFleb x y = true <-> rank x <= rank y.
Proof.
  intros Hx Hy Nx Ny. unfold SFleb. rewrite SFcompare_rank by assumption.
  destruct (Z.compare_spec (rank x) (rank y)); split; intros; try reflexivity; try lia; discriminate.
Qed.

Lemma SFltb_rank (x y : spec_float) :
  valid_binary x = true -> valid_binary y = true -> not_nan x -> not_nan y ->
  SFltb x y = true <-> rank x < rank y.
Proof.
  intros Hx Hy Nx Ny. unfold SFltb. rewrite SFcompare_rank by assumption.
  destruct (Z.compare_spec (rank x) (rank y)); split; intros; try reflexivity; try lia; discriminate.
Qed.

(** ** Subtraction and division of finite floats *)

Lemma iter_xO_pow (m d : positive) : Zpos (Pos.iter xO m d) = Zpos m * 2 ^ Zpos d.
Proof.
  induction d as [| d IH] using Pos.peano_ind.
  - cbn [Pos.iter]. rewrite Pos2Z.inj_xO. change (2 ^ 1) with 2. ring.
  - rewrite Pos.iter_succ, Pos2Z.inj_xO, IH, Pos2Z.inj_succ, Z.pow_succ_r by lia. ring.
Qed.

Lemma shl_align_spec (m : positive) (e e' : Z) :
  let '(m', e'') := shl_align m e e' in
  e'' = Z.min e e' /\ Zpos m' = Zpos m * 2 ^ (e - e'').
Proof.
  unfold shl_align. destruct (e' - e) as [| d | d] eqn:Hd.
  - split; [lia |]. replace (e - e) with 0 by lia. lia.
  - split; [lia |]. replace (e - e) with 0 by lia. lia.
  - split; [lia |]. rewrite iter_xO_pow. f_equal. f_equal. lia.
Qed.

Lemma code_exact (m j : Z) : 0 <= m -> 0 <= j ->
  code (m * 2 ^ j) 1 j = {| shr_m := m; shr_r := false; shr_s := false |}.
Proof.
  intros Hm Hj. unfold code.
  assert (H2j : 0 < 2 ^ j) by (apply Z.pow_pos_nonneg; lia).
  rewrite Z.mul_1_l.
  replace (2 * (m * 2 ^ j)) with (2 * m * 2 ^ j) by ring.
  rewrite !Z.div_mul, Z.mod_mul by lia.
  rewrite Z.odd_mul. reflexivity.
Qed.

(** [binary_round] and [binary_normalize] round an exact integer multiple of
    [2^e] to the nearest float. *)
Lemma binary_round_correct (s : bool) (m : positive) (e : Z) : -1074 <= e ->
  binary_round prec emax s m e = mk s (RV (Zpos m * 2 ^ (e + 1074)) 1).
Proof.
  intros He. unfold binary_round.
  pose proof (shl_align_spec m e (fexp prec emax (Zpos (digits2_pos m) + e))) as Hs.
  destruct (shl_align m e (fexp prec emax (Zpos (digits2_pos m) + e))) as [mz ez].
  destruct Hs as [Hez Hmz]. rewrite fexp64 in Hez.
  assert (Hez0 : -1074 <= ez <= e) by lia.
  assert (HN : Zpos m * 2 ^ (e + 1074) = Zpos mz * 2 ^ (ez + 1074)).
  { rewrite Hmz, <- Z.mul_assoc, <- Z.pow_add_r by lia. f_equal. f_equal. lia. }
  rewrite HN.
  apply binary_round_aux_correct; [| lia | lia | |].
  - apply Z.mul_nonneg_nonneg; [lia | apply Z.pow_nonneg; lia].
  - cbn [shr_record_of_loc]. symmetry. apply code_exact; lia.
  - destruct (Z.eq_dec ez (-1074)) as [H | H]; [left; exact H | right].
    pose proof (digits2_pos_bounds m) as [Hlo _].
    assert (Hd : Zpos (digits2_pos m) + e - 53 >= ez) by lia.
    rewrite Hmz.
    apply Z.le_trans with (m := 2 ^ (Zpos (digits2_pos m) - 1) * 2 ^ (e - ez)).
    + rewrite <- Z.pow_add_r by lia. apply Z.pow_le_mono_r; lia.
    + apply Z.mul_le_mono_nonneg_r; [apply Z.pow_nonneg; lia | exact Hlo].
Qed.

Lemma binary_normalize_correct (z e : Z) : -1074 <= e ->
  binary_normalize prec emax z e false = ofZ (z * 2 ^ (e + 1074)).
Proof.
  intros He.
  assert (H2 : 0 < 2 ^ (e + 1074)) by (apply Z.pow_pos_nonneg; lia).
  destruct z as [| p | p]; cbn [binary_normalize].
  - reflexivity.
  - rewrite binary_round_correct by lia. unfold ofZ.
    destruct (Zpos p * 2 ^ (e + 1074)) eqn:Hz; try lia. reflexivity.
  - rewrite binary_round_correct by lia. unfold ofZ.
    destruct (Zneg p * 2 ^ (e + 1074)) eqn:Hz; try lia.
    rewrite <- Hz. f_equal. f_equal. lia.
Qed.

(** The difference of two finite floats is the float nearest to the exact
    difference. *)
Lemma SFsub_finite (sx sy : bool) (mx my : positive) (ex ey : Z) :
  -1074 <= ex -> -1074 <= ey ->
  SF64sub (S754_finite sx mx ex) (S754_finite sy my ey)
  = ofZ (rank (S754_finite sx mx ex) - rank (S754_finite sy my ey)).
Proof.
  intros Hex Hey. unfold SF64sub. cbn [SFsub rank].
  pose proof (shl_align_spec mx ex (Z.min ex ey)) as Hx.
  pose proof (shl_align_spec my ey (Z.min ex ey)) as Hy.
  destruct (shl_align mx ex (Z.min ex ey)) as [mx' ex'].
  destruct (shl_align my ey (Z.min ex ey)) as [my' ey'].
  destruct Hx as [Hex' Hmx]. destruct Hy as [Hey' Hmy].
  cbn [fst].
  rewrite binary_normalize_correct by lia.
  f_equal. unfold units.
  set (ez := Z.min ex ey) in *.
  assert (Hux : Zpos mx * 2 ^ (ex + 1074) = Zpos mx' * 2 ^ (ez + 1074)).
  { rewrite Hmx, <- Z.mul_assoc, <- Z.pow_add_r by lia. f_equal. f_equal. lia. }
  assert (Huy : Zpos my * 2 ^ (ey + 1074) = Zpos my' * 2 ^ (ez + 1074)).
  { rewrite Hmy, <- Z.mul_assoc, <- Z.pow_add_r by lia. f_equal. f_equal. lia. }
  rewrite Hux, Huy.
  destruct sx, sy; cbn [cond_Zopp]; ring.
Qed.

Lemma code_scale (N D j : Z) : 0 < D -> 0 <= j ->
  code (N * 2 ^ j) D j = code N D 0.
Proof.
  intros HD Hj. unfold code.
  assert (H2j : 0 < 2 ^ j) by (apply Z.pow_pos_nonneg; lia).
  rewrite Z.pow_0_r, Z.mul_1_r.
  replace (2 * (N * 2 ^ j)) with (2 * N * 2 ^ j) by ring.
  rewrite !Z.div_mul_cancel_r by lia.
  rewrite Z.mul_mod_distr_r by lia.
  f_equal. f_equal.
  destruct (Z.eqb_spec ((2 * N) mod D) 0) as [H | H].
  - rewrite H. reflexivity.
  - apply Z.eqb_neq. nia.
Qed.

(** The location computed from a remainder is the shift record of the
    quotient. *)
Lemma new_location_code (m d : Z) : 0 <= m -> 0 < d ->
  shr_record_of_loc (m / d) (new_location d (m mod d)) = code m d 0.
Proof.
  intros Hm Hd. unfold code. rewrite Z.pow_0_r, Z.mul_1_r.
  pose proof (Z.div_mod m d ltac:(lia)) as H1.
  pose proof (Z.mod_pos_bound m d Hd) as H2.
  set (q := m / d) in *. set (v := m mod d) in *.
  assert (Hloc : new_location d v =
                 if v =? 0 then loc_Exact else loc_Inexact (2 * v ?= d)).
  { unfold new_location, new_location_even, new_location_odd.
    destruct (Z.even d) eqn:Hev; [reflexivity |].
    destruct (v =? 0); [reflexivity |]. f_equal.
    assert (Hodd : Z.odd d = true) by (rewrite <- Z.negb_even, Hev; reflexivity).
    apply Z.odd_spec in Hodd as [c Hc].
    destruct (Z.compare_spec (2 * v + 1) d); destruct (Z.compare_spec (2 * v) d);
      try reflexivity; lia. }
  rewrite Hloc.
  destruct (Z_lt_ge_dec (2 * v) d) as [Hlt | Hge].
  - rewrite <- (Z.div_unique (2 * m) d (2 * q) (2 * v)) by lia.
    rewrite <- (Z.mod_unique (2 * m) d (2 * q) (2 * v)) by lia.
    rewrite Z.odd_mul. cbn [Z.odd andb].
    replace (2 * v ?= d) with Lt by (symmetry; apply Z.compare_lt_iff; lia).
    destruct (Z.eqb_spec v 0) as [Hv | Hv].
    + rewrite Hv. reflexivity.
    + replace (2 * v =? 0) with false by (symmetry; apply Z.eqb_neq; lia). reflexivity.
  - rewrite <- (Z.div_unique (2 * m) d (2 * q + 1) (2 * v - d)) by lia.
    rewrite <- (Z.mod_unique (2 * m) d (2 * q + 1) (2 * v - d)) by lia.
    replace (Z.odd (2 * q + 1)) with true
      by (rewrite Z.add_comm, Z.odd_add_mul_2; reflexivity).
    replace (v =? 0) with false by (symmetry; apply Z.eqb_neq; lia).
    destruct (Z.eqb_spec (2 * v - d) 0) as [Heq | Hne].
    + replace (2 * v ?= d) with Eq by (symmetry; apply Z.compare_eq_iff; lia).
      reflexivity.
    + replace (2 * v ?= d) with Gt by (symmetry; apply Z.compare_gt_iff; lia).
      reflexivity.
Qed.

(** The quotient of two finite floats is the float nearest to the exact
    quotient. *)
Lemma SFdiv_finite (sx sy : bool) (mx my : positive) (ex ey : Z) :
  -1074 <= ex - ey ->
  SF64div (S754_finite sx mx ex) (S754_finite sy my ey)
  = mk (xorb sx sy) (RV (Zpos mx * 2 ^ (ex - ey + 1074)) (Zpos my)).
Proof.
  intros He. unfold SF64div. cbn [SFdiv]. unfold SFdiv_core_binary.
  rewrite fexp64. cbn [Zdigits2].
  set (d1 := Zpos (digits2_pos mx)). set (d2 := Zpos (digits2_pos my)).
  set (e' := Z.min (Z.max (d1 + ex - (d2 + ey) - 53) (-1074)) (ex - ey)).
  assert (He' : -1074 <= e' <= ex - ey) by (unfold e'; lia).
  set (s := ex - ey - e').
  assert (Hs : 0 <= s) by (unfold s; lia).
  assert (Hm' : match s with
                | 0 => Zpos mx
                | Zpos _ => Z.shiftl (Zpos mx) s
                | Zneg _ => 0
                end = Zpos mx * 2 ^ s).
  { destruct s as [| p | p] eqn:Hsp; [rewrite Z.pow_0_r; lia | | lia].
    rewrite Z.shiftl_mul_pow2 by lia. reflexivity. }
  rewrite Hm'.
  set (m' := Zpos mx * 2 ^ s).
  assert (H2s : 0 < 2 ^ s) by (apply Z.pow_pos_nonneg; lia).
  assert (Hm'pos : 0 < m') by (unfold m'; lia).
  assert (Hde : Z.div_eucl m' (Zpos my) = (m' / Zpos my, m' mod Zpos my)).
  { unfold Z.div, Z.modulo. destruct (Z.div_eucl m' (Zpos my)); reflexivity. }
  rewrite Hde.
  assert (HN : Zpos mx * 2 ^ (ex - ey + 1074) = m' * 2 ^ (e' + 1074)).
  { unfold m'. rewrite <- Z.mul_assoc, <- Z.pow_add_r by lia. f_equal. f_equal.
    unfold s. lia. }
  rewrite HN.
  apply binary_round_aux_correct; [| lia | lia | |].
  - apply Z.mul_nonneg_nonneg; [lia | apply Z.pow_nonneg; lia].
  - rewrite code_scale by lia. apply new_location_code; lia.
  - destruct (Z.eq_dec e' (-1074)) as [H | H]; [left; exact H | right].
    pose proof (digits2_pos_bounds mx) as [Hlo1 _].
    pose proof (digits2_pos_bounds my) as [_ Hhi2].
    fold d1 in Hlo1. fold d2 in Hhi2.
    assert (Hd1 : 0 < d1) by (unfold d1; lia).
    assert (Hd2 : 0 < d2) by (unfold d2; lia).
    assert (Hsge : 53 - d1 + d2 <= s) by (unfold s, e' in *; lia).
    apply Z.div_le_lower_bound; [lia |].
    assert (Hbig : 2 ^ (52 + d2) <= m').
    { unfold m'. apply Z.le_trans with (m := 2 ^ (d1 - 1) * 2 ^ s).
      - rewrite <- Z.pow_add_r by lia. apply Z.pow_le_mono_r; lia.
      - apply Z.mul_le_mono_nonneg_r; lia. }
    rewrite Z.pow_add_r in Hbig by lia.
    assert (H52 : 0 < 2 ^ 52) by lia.
    nia.
Qed.

(** ** The arithmetic steps are monotone *)

Lemma Zdigits2_mul_pow2 (r k : Z) : 0 < r -> 0 <= k ->
  Zdigits2 (r * 2 ^ k) = Zdigits2 r + k.
Proof.
  intros Hr Hk.
  pose proof (Zdigits2_bounds r Hr) as [Hlo Hhi].
  pose proof (Zdigits2_pos r Hr) as Hp.
  assert (H2k : 0 < 2 ^ k) by (apply Z.pow_pos_nonneg; lia).
  apply Zdigits2_unique; [| lia].
  replace (Zdigits2 r + k - 1) with (Zdigits2 r - 1 + k) by lia.
  rewrite !Z.pow_add_r by lia. split; nia.
Qed.

Lemma Zrne_exact (q d : Z) : 0 < d -> Zrne (q * d) d = q.
Proof.
  intros Hd. unfold Zrne. rewrite Z.div_mul, Z.mod_mul by lia.
  replace (2 * 0 ?= d) with Lt by (symmetry; apply Z.compare_lt_iff; lia).
  reflexivity.
Qed.

Lemma Zrne_scale (n d c : Z) : 0 < d -> 0 < c -> Zrne (n * c) (d * c) = Zrne n d.
Proof.
  intros Hd Hc. unfold Zrne.
  rewrite Z.div_mul_cancel_r, Z.mul_mod_distr_r by lia.
  replace (2 * (n mod d * c) ?= d * c) with (2 * (n mod d) ?= d); [reflexivity |].
  destruct (Z.compare_spec (2 * (n mod d)) d) as [H | H | H]; symmetry.
  - apply Z.compare_eq_iff. nia.
  - apply Z.compare_lt_iff. nia.
  - apply Z.compare_gt_iff. nia.
Qed.

Lemma RV_zero (D : Z) : 0 < D -> RV 0 D = 0.
Proof.
  intros HD. unfold RV, lev. rewrite Z.div_0_l by lia. cbn [Zdigits2].
  change (Z.max (0 - 53) 0) with 0. rewrite Z.pow_0_r, !Z.mul_1_r.
  change 0 with (0 * D) at 1. apply Zrne_exact. exact HD.
Qed.

(** A canonical float is its own rounding. *)
Lemma RV_exact (s : bool) (m : positive) (e : Z) :
  valid_binary (S754_finite s m e) = true ->
  RV (units m e) 1 = units m e /\ mk s (units m e) = S754_finite s m e.
Proof.
  intros Hv. apply valid_finite in Hv as [He [Hd Hn]].
  assert (Hdig : Zdigits2 (units m e) = Zpos (digits2_pos m) + (e + 1074)).
  { unfold units. rewrite Zdigits2_mul_pow2 by lia. reflexivity. }
  assert (Hk : Z.max (Zdigits2 (units m e) - 53) 0 = e + 1074).
  { rewrite Hdig. destruct (Z.eq_dec e (-1074)); [lia |]. rewrite Hn by lia. lia. }
  assert (H2 : 0 < 2 ^ (e + 1074)) by (apply Z.pow_pos_nonneg; lia).
  split.
  - unfold RV, lev. rewrite Z.div_1_r, Hk, Z.mul_1_l.
    unfold units at 1. rewrite Zrne_exact by lia. reflexivity.
  - unfold mk. assert (Hu : 0 < units m e) by (unfold units; lia).
    destruct (units m e) as [| p | p] eqn:Hp; try lia.
    cbn [Zdigits2] in Hk. rewrite Hk.
    replace (e + 1074 <=? 2045) with true by (symmetry; apply Z.leb_le; lia).
    f_equal; [| lia].
    rewrite <- Hp. unfold units. rewrite Z.div_mul by lia. reflexivity.
Qed.

Lemma oddext_mono (g : Z -> Z) :
  (forall a b, 0 <= a <= b -> g a <= g b) -> (forall a, 0 <= a -> 0 <= g a) ->
  forall z1 z2, z1 <= z2 -> oddext g z1 <= oddext g z2.
Proof.
  intros Hmono Hpos z1 z2 Hz. unfold oddext.
  destruct (Z.leb_spec 0 z1), (Z.leb_spec 0 z2); try lia.
  - apply Hmono; lia.
  - pose proof (Hpos (- z1) ltac:(lia)). pose proof (Hpos z2 ltac:(lia)). lia.
  - pose proof (Hmono (- z2) (- z1) ltac:(lia)). lia.
Qed.

Lemma oddext_bound (g : Z -> Z) (B : Z) :
  (forall a, 0 <= a -> 0 <= g a <= B) -> forall z, - B <= oddext g z <= B.
Proof.
  intros Hb z. unfold oddext. destruct (Z.leb_spec 0 z).
  - pose proof (Hb z ltac:(lia)). lia.
  - pose proof (Hb (- z) ltac:(lia)). lia.
Qed.

Lemma gsub_mono (a b : Z) : 0 <= a <= b -> gsub a <= gsub b.
Proof. intros H. apply grid_mono, RV_mono; lia. Qed.

Lemma gsub_bound (a : Z) : 0 <= gsub a <= 2 ^ 2098.
Proof. apply grid_bound. Qed.

Lemma gdiv_mono (ec : Z) (mc : positive) (a b : Z) : ec <= 0 -> 0 <= a <= b ->
  gdiv ec mc a <= gdiv ec mc b.
Proof.
  intros He H. apply grid_mono, RV_mono; [| lia | lia |].
  - apply Z.mul_nonneg_nonneg; [lia | apply Z.pow_nonneg; lia].
  - apply Z.mul_le_mono_nonneg_r; [lia |].
    apply Z.mul_le_mono_nonneg_r; [apply Z.pow_nonneg; lia | lia].
Qed.

Lemma gdiv_bound (ec : Z) (mc : positive) (a : Z) : 0 <= gdiv ec mc a <= 2 ^ 2098.
Proof. apply grid_bound. Qed.

Lemma ground_mono (nd a b : Z) : 0 <= nd -> 0 <= a <= b -> ground nd a <= ground nd b.
Proof.
  intros Hnd H.
  assert (H10 : 0 < 10 ^ nd) by (apply Z.pow_pos_nonneg; lia).
  assert (H2 : 0 < 2 ^ 1074) by (apply Z.pow_pos_nonneg; lia).
  assert (Hr : Zrne (a * 10 ^ nd) (2 ^ 1074) <= Zrne (b * 10 ^ nd) (2 ^ 1074)).
  { apply Zrne_mono; try lia.
    apply Z.mul_le_mono_nonneg_r; [lia |].
    apply Z.mul_le_mono_nonneg_r; lia. }
  assert (Hr0 : 0 <= Zrne (a * 10 ^ nd) (2 ^ 1074)).
  { pose proof (Zrne_bounds (a * 10 ^ nd) _ H2).
    assert (0 <= a * 10 ^ nd / 2 ^ 1074) by (apply Z.div_pos; [apply Z.mul_nonneg_nonneg |]; lia).
    lia. }
  apply grid_mono, RV_mono; [| lia | lia |].
  - apply Z.mul_nonneg_nonneg; lia.
  - apply Z.mul_le_mono_nonneg_r; [lia |].
    apply Z.mul_le_mono_nonneg_r; lia.
Qed.

Lemma ground_bound (nd a : Z) : 0 <= ground nd a <= 2 ^ 2098.
Proof. apply grid_bound. Qed.

Lemma rank_fin_bound (x : spec_float) :
  valid_binary x = true -> fin x -> - 2 ^ 2098 < rank x < 2 ^ 2098.
Proof.
  intros Hv Hf.
  assert (Hp : 0 < 2 ^ 2098) by (apply Z.pow_pos_nonneg; lia).
  destruct x as [s | s | | s m e]; try contradiction; cbn [rank].
  - lia.
  - pose proof (units_bounds _ _ _ Hv) as [Hb _]. destruct s; lia.
Qed.

Lemma mk_not_nan (s : bool) (v : Z) : not_nan (mk s v).
Proof.
  unfold mk, not_nan. destruct v as [| p | p]; try discriminate.
  destruct (_ <=? _); discriminate.
Qed.

Section Lift.
Variable f : spec_float -> spec_float.
Variable H : Z -> Z.
Hypothesis H_mono : forall z1 z2, z1 <= z2 -> H z1 <= H z2.
Hypothesis H_bound : forall z, - 2 ^ 2098 <= H z <= 2 ^ 2098.

(** A step that acts on finite values as a monotone map of ranks, and
    keeps the infinities, is monotone on all non-NaN floats. *)
Lemma lift_mono :
  (forall x, valid_binary x = true -> fin x -> rank (f x) = H (rank x)) ->
  (forall s, f (S754_infinity s) = S754_infinity s) ->
  forall x1 x2, valid_binary x1 = true -> valid_binary x2 = true ->
    not_nan x1 -> not_nan x2 -> rank x1 <= rank x2 -> rank (f x1) <= rank (f x2).
Proof.
  intros Hfin Hinf x1 x2 V1 V2 N1 N2 Hle.
  assert (C1 : (exists s, x1 = S754_infinity s) \/ fin x1).
  { destruct x1; try (right; exact I); [left; eauto | now elim N1]. }
  assert (C2 : (exists s, x2 = S754_infinity s) \/ fin x2).
  { destruct x2; try (right; exact I); [left; eauto | now elim N2]. }
  destruct C1 as [[s1 ->] | F1]; destruct C2 as [[s2 ->] | F2].
  - rewrite !Hinf. exact Hle.
  - pose proof (rank_fin_bound _ V2 F2) as B2.
    rewrite Hinf, (Hfin _ V2 F2). specialize (H_bound (rank x2)).
    destruct s1; cbn [rank] in *; lia.
  - pose proof (rank_fin_bound _ V1 F1) as B1.
    rewrite Hinf, (Hfin _ V1 F1). specialize (H_bound (rank x1)).
    destruct s2; cbn [rank] in *; lia.
  - rewrite (Hfin _ V1 F1), (Hfin _ V2 F2). now apply H_mono.
Qed.

(** The same for a step that reverses the order and swaps the infinities. *)
Lemma lift_anti :
  (forall x, valid_binary x = true -> fin x -> rank (f x) = - H (rank x)) ->
  (forall s, f (S754_infinity s) = S754_infinity (negb s)) ->
  forall x1 x2, valid_binary x1 = true -> valid_binary x2 = true ->
    not_nan x1 -> not_nan x2 -> rank x1 <= rank x2 -> rank (f x2) <= rank (f x1).
Proof.
  intros Hfin Hinf x1 x2 V1 V2 N1 N2 Hle.
  assert (C1 : (exists s, x1 = S754_infinity s) \/ fin x1).
  { destruct x1; try (right; exact I); [left; eauto | now elim N1]. }
  assert (C2 : (exists s, x2 = S754_infinity s) \/ fin x2).
  { destruct x2; try (right; exact I); [left; eauto | now elim N2]. }
  destruct C1 as [[s1 ->] | F1]; destruct C2 as [[s2 ->] | F2].
  - rewrite !Hinf. destruct s1, s2; cbn [rank negb] in *; lia.
  - pose proof (rank_fin_bound _ V2 F2) as B2.
    rewrite Hinf, (Hfin _ V2 F2). specialize (H_bound (rank x2)).
    destruct s1; cbn [rank negb] in *; lia.
  - pose proof (rank_fin_bound _ V1 F1) as B1.
    rewrite Hinf, (Hfin _ V1 F1). specialize (H_bound (rank x1)).
    destruct s2; cbn [rank negb] in *; lia.
  - rewrite (Hfin _ V1 F1), (Hfin _ V2 F2).
    pose proof (H_mono _ _ Hle). lia.
Qed.
End Lift.

(** *** Subtraction of a finite constant *)

Lemma rank_ofZ (z : Z) : rank (ofZ z) = oddext gsub z.
Proof.
  unfold ofZ, oddext, gsub. destruct z as [| p | p].
  - cbn [rank]. replace (0 <=? 0) with true by reflexivity.
    rewrite RV_zero by lia. reflexivity.
  - rewrite rank_mk. reflexivity.
  - rewrite rank_mk. reflexivity.
Qed.

Lemma grid_units (s : bool) (m : positive) (e : Z) :
  valid_binary (S754_finite s m e) = true -> gsub (units m e) = units m e.
Proof.
  intros Hv. destruct (RV_exact false m e Hv) as [H1 H2].
  unfold gsub. rewrite H1.
  pose proof (rank_mk false (units m e)) as Hr. rewrite H2 in Hr.
  cbn [rank] in Hr. symmetry. exact Hr.
Qed.

Lemma sub_fin (sc : bool) (mc : positive) (ec : Z) (x : spec_float) :
  valid_binary (S754_finite sc mc ec) = true ->
  valid_binary x = true -> fin x ->
  rank (SF64sub x (S754_finite sc mc ec))
  = oddext gsub (rank x - rank (S754_finite sc mc ec))
  /\ not_nan (SF64sub x (S754_finite sc mc ec)).
Proof.
  intros Vc Vx Fx.
  pose proof (valid_finite _ _ _ Vc) as [Hec _].
  destruct x as [s | s | | s m e]; try contradiction.
  - (* zero minus c is the opposite of c *)
    unfold SF64sub. cbn [SFsub]. split; [| discriminate].
    pose proof (units_bounds _ _ _ Vc) as [Hb _].
    pose proof (grid_units _ _ _ Vc) as Hg.
    cbn [rank]. unfold oddext.
    destruct sc; cbn [negb].
    + replace (0 <=? 0 - - units mc ec) with true by (symmetry; apply Z.leb_le; lia).
      replace (0 - - units mc ec) with (units mc ec) by lia. now rewrite Hg.
    + replace (0 <=? 0 - units mc ec) with false by (symmetry; apply Z.leb_gt; lia).
      replace (- (0 - units mc ec)) with (units mc ec) by lia. now rewrite Hg.
  - pose proof (valid_finite _ _ _ Vx) as [Hex _].
    rewrite SFsub_finite by lia. split; [apply rank_ofZ |].
    unfold ofZ. destruct (_ - _); [discriminate | apply mk_not_nan | apply mk_not_nan].
Qed.

Lemma sub_mono (sc : bool) (mc : positive) (ec : Z) (x1 x2 : spec_float) :
  valid_binary (S754_finite sc mc ec) = true ->
  valid_binary x1 = true -> valid_binary x2 = true ->
  not_nan x1 -> not_nan x2 -> rank x1 <= rank x2 ->
  rank (SF64sub x1 (S754_finite sc mc ec)) <= rank (SF64sub x2 (S754_finite sc mc ec)).
Proof.
  intros Vc.
  apply (lift_mono (fun x => SF64sub x (S754_finite sc mc ec))
                   (fun z => oddext gsub (z - rank (S754_finite sc mc ec)))).
  - intros z1 z2 Hz. apply oddext_mono; [apply gsub_mono | intros a _; apply gsub_bound | lia].
  - intros z. apply oddext_bound. intros a _. apply gsub_bound.
  - intros x Vx Fx. now apply sub_fin.
  - intros s. reflexivity.
Qed.

Lemma sub_not_nan (sc : bool) (mc : positive) (ec : Z) (x : spec_float) :
  valid_binary (S754_finite sc mc ec) = true -> valid_binary x = true ->
  not_nan x -> not_nan (SF64sub x (S754_finite sc mc ec)).
Proof.
  intros Vc Vx Nx. destruct x as [s | s | | s m e] eqn:Hx; try (now elim Nx).
  - apply sub_fin; [assumption | assumption | exact I].
  - discriminate.
  - apply sub_fin; [assumption | assumption | exact I].
Qed.

(** *** Division by a finite constant *)

Lemma gdiv_zero (ec : Z) (mc : positive) : gdiv ec mc 0 = 0.
Proof. unfold gdiv. rewrite Z.mul_0_l, RV_zero by lia. reflexivity. Qed.

Lemma div_fin (sc : bool) (mc : positive) (ec : Z) (x : spec_float) :
  ec <= 0 -> valid_binary x = true -> fin x ->
  rank (SF64div x (S754_finite sc mc ec))
  = (if sc then - oddext (gdiv ec mc) (rank x) else oddext (gdiv ec mc) (rank x))
  /\ not_nan (SF64div x (S754_finite sc mc ec)).
Proof.
  intros Hec Vx Fx.
  destruct x as [s | s | | s m e]; try contradiction.
  - unfold SF64div. cbn [SFdiv rank]. split; [| discriminate].
    unfold oddext. replace (0 <=? 0) with true by reflexivity.
    rewrite gdiv_zero. destruct sc; reflexivity.
  - pose proof (valid_finite _ _ _ Vx) as [Hex _].
    pose proof (units_bounds _ _ _ Vx) as [Hb _].
    rewrite SFdiv_finite by lia. split; [| apply mk_not_nan].
    rewrite rank_mk. cbn [rank]. unfold oddext.
    assert (Hu : Zpos m * 2 ^ (e - ec + 1074) = units m e * 2 ^ (- ec)).
    { unfold units. rewrite <- Z.mul_assoc, <- Z.pow_add_r by lia. f_equal. f_equal. lia. }
    rewrite Hu. fold (gdiv ec mc (units m e)).
    destruct s, sc; cbn [xorb].
    + replace (0 <=? - units m e) with false by (symmetry; apply Z.leb_gt; lia).
      rewrite !Z.opp_involutive. reflexivity.
    + replace (0 <=? - units m e) with false by (symmetry; apply Z.leb_gt; lia).
      rewrite !Z.opp_involutive. reflexivity.
    + replace (0 <=? units m e) with true by (symmetry; apply Z.leb_le; lia).
      reflexivity.
    + replace (0 <=? units m e) with true by (symmetry; apply Z.leb_le; lia).
      reflexivity.
Qed.

Lemma div_pos_mono (mc : positive) (ec : Z) (x1 x2 : spec_float) :
  ec <= 0 ->
  valid_binary x1 = true -> valid_binary x2 = true ->
  not_nan x1 -> not_nan x2 -> rank x1 <= rank x2 ->
  rank (SF64div x1 (S754_finite false mc ec)) <= rank (SF64div x2 (S754_finite false mc ec)).
Proof.
  intros Hec.
  apply (lift_mono (fun x => SF64div x (S754_finite false mc ec)) (oddext (gdiv ec mc))).
  - apply oddext_mono; [intros; now apply gdiv_mono | intros; apply gdiv_bound].
  - apply oddext_bound. intros a _. apply gdiv_bound.
  - intros x Vx Fx. now apply (div_fin false).
  - intros s. unfold SF64div. cbn [SFdiv]. now rewrite xorb_false_r.
Qed.

Lemma div_neg_anti (mc : positive) (ec : Z) (x1 x2 : spec_float) :
  ec <= 0 ->
  valid_binary x1 = true -> valid_binary x2 = true ->
  not_nan x1 -> not_nan x2 -> rank x1 <= rank x2 ->
  rank (SF64div x2 (S754_finite true mc ec)) <= rank (SF64div x1 (S754_finite true mc ec)).
Proof.
  intros Hec.
  apply (lift_anti (fun x => SF64div x (S754_finite true mc ec)) (oddext (gdiv ec mc))).
  - apply oddext_mono; [intros; now apply gdiv_mono | intros; apply gdiv_bound].
  - apply oddext_bound. intros a _. apply gdiv_bound.
  - intros x Vx Fx. now apply (div_fin true).
  - intros s. unfold SF64div. cbn [SFdiv]. now rewrite xorb_true_r.
Qed.

Lemma div_not_nan (sc : bool) (mc : positive) (ec : Z) (x : spec_float) :
  ec <= 0 -> valid_binary x = true ->
  not_nan x -> not_nan (SF64div x (S754_finite sc mc ec)).
Proof.
  intros Hec Vx Nx. destruct x as [s | s | | s m e] eqn:Hx; try (now elim Nx).
  - apply div_fin; [assumption | assumption | exact I].
  - discriminate.
  - apply div_fin; [assumption | assumption | exact I].
Qed.

(** ** Rounding to decimals *)

(** [Py.round] on primitive floats is [SFround] on their specification. *)
Lemma round_spec (x : float) (nd : Z) : Prim2SF (round x nd) = SFround nd (Prim2SF x).
Proof.
  unfold round, SFround. destruct (Prim2SF x) as [s | s | | s m e] eqn:Hx;
    try exact Hx.
  destruct (scaled m e nd) as [| n | n].
  - destruct s; reflexivity.
  - apply Prim2SF_SF2Prim. rewrite SFdiv_finite by lia. apply mk_valid.
  - destruct s; reflexivity.
Qed.

(** The scaled integer of [Py.round] in terms of the value in units. *)
Lemma scaled_units (m : positive) (e nd : Z) : -1074 <= e -> 0 <= nd ->
  scaled m e nd = Zrne (units m e * 10 ^ nd) (2 ^ 1074).
Proof.
  intros He Hnd. unfold scaled, units.
  assert (H2 : 0 < 2 ^ 1074) by (apply Z.pow_pos_nonneg; lia).
  destruct e as [| k | k].
  - rewrite Z.pow_0_r, Z.mul_1_r. change (0 + 1074) with 1074.
    replace (Zpos m * 2 ^ 1074 * 10 ^ nd) with (Zpos m * 10 ^ nd * 2 ^ 1074) by ring.
    now rewrite Zrne_exact.
  - rewrite Z.pow_add_r by lia.
    replace (Zpos m * (2 ^ Zpos k * 2 ^ 1074) * 10 ^ nd)
      with (Zpos m * 2 ^ Zpos k * 10 ^ nd * 2 ^ 1074) by ring.
    now rewrite Zrne_exact.
  - assert (Hk : Zpos k <= 1074) by lia.
    assert (H2k : 0 < 2 ^ Zpos k) by (apply Z.pow_pos_nonneg; lia).
    assert (H2r : 0 < 2 ^ (Zneg k + 1074)) by (apply Z.pow_pos_nonneg; lia).
    replace (2 ^ 1074) with (2 ^ Zpos k * 2 ^ (Zneg k + 1074))
      by (rewrite <- Z.pow_add_r by lia; f_equal; lia).
    replace (Zpos m * 2 ^ (Zneg k + 1074) * 10 ^ nd)
      with (Zpos m * 10 ^ nd * 2 ^ (Zneg k + 1074)) by ring.
    now rewrite Zrne_scale.
Qed.

Lemma ground_zero (nd : Z) : 0 <= nd -> ground nd 0 = 0.
Proof.
  intros Hnd. unfold ground.
  assert (H10 : 0 < 10 ^ nd) by (apply Z.pow_pos_nonneg; lia).
  assert (H2 : 0 < 2 ^ 1074) by (apply Z.pow_pos_nonneg; lia).
  replace (Zrne (0 * 10 ^ nd) (2 ^ 1074)) with 0
    by (rewrite Z.mul_0_l; symmetry; exact (Zrne_exact 0 _ H2)).
  rewrite (Z.mul_0_l (2 ^ 1074)), RV_zero by lia. reflexivity.
Qed.

Lemma round_fin (nd : Z) (x : spec_float) : 0 <= nd ->
  valid_binary x = true -> fin x ->
  rank (SFround nd x) = oddext (ground nd) (rank x) /\ not_nan (SFround nd x).
Proof.
  intros Hnd Vx Fx.
  assert (H10 : 0 < 10 ^ nd) by (apply Z.pow_pos_nonneg; lia).
  assert (H2 : 0 < 2 ^ 1074) by (apply Z.pow_pos_nonneg; lia).
  destruct x as [s | s | | s m e]; try contradiction.
  - cbn [SFround rank]. split; [| discriminate].
    unfold oddext. replace (0 <=? 0) with true by reflexivity.
    now rewrite ground_zero.
  - pose proof (valid_finite _ _ _ Vx) as [Hex _].
    pose proof (units_bounds _ _ _ Vx) as [Hb _].
    cbn [SFround rank]. rewrite scaled_units by lia.
    assert (HS : 0 <= Zrne (units m e * 10 ^ nd) (2 ^ 1074)).
    { pose proof (Zrne_bounds (units m e * 10 ^ nd) _ H2).
      assert (0 <= units m e * 10 ^ nd / 2 ^ 1074)
        by (apply Z.div_pos; [apply Z.mul_nonneg_nonneg |]; lia).
      lia. }
    assert (Hg : ground nd (units m e)
                 = grid (RV (Zrne (units m e * 10 ^ nd) (2 ^ 1074) * 2 ^ 1074) (10 ^ nd)))
      by reflexivity.
    assert (Hodd : oddext (ground nd) (if s then - units m e else units m e)
                   = if s then - ground nd (units m e) else ground nd (units m e)).
    { unfold oddext. destruct s.
      - replace (0 <=? - units m e) with false by (symmetry; apply Z.leb_gt; lia).
        now rewrite Z.opp_involutive.
      - replace (0 <=? units m e) with true by (symmetry; apply Z.leb_le; lia).
        reflexivity. }
    rewrite Hodd, Hg.
    destruct (Zrne (units m e * 10 ^ nd) (2 ^ 1074)) as [| n | n] eqn:HSe; try lia.
    + cbn [rank]. rewrite Z.mul_0_l, RV_zero by lia. split; [| discriminate].
      destruct s; reflexivity.
    + rewrite SFdiv_finite by lia. split; [| apply mk_not_nan].
      rewrite rank_mk, xorb_false_r.
      rewrite Z2Pos.id by lia.
      replace (0 - 0 + 1074) with 1074 by lia. reflexivity.
Qed.

Lemma round_mono (nd : Z) (x1 x2 : spec_float) : 0 <= nd ->
  valid_binary x1 = true -> valid_binary x2 = true ->
  not_nan x1 -> not_nan x2 -> rank x1 <= rank x2 ->
  rank (SFround nd x1) <= rank (SFround nd x2).
Proof.
  intros Hnd.
  apply (lift_mono (SFround nd) (oddext (ground nd))).
  - apply oddext_mono; [intros; now apply ground_mono | intros; apply ground_bound].
  - apply oddext_bound. intros a _. apply ground_bound.
  - intros x Vx Fx. now apply round_fin.
  - intros s. reflexivity.
Qed.

Lemma round_not_nan (nd : Z) (x : spec_float) : 0 <= nd ->
  valid_binary x = true -> not_nan x -> not_nan (SFround nd x).
Proof.
  intros Hnd Vx Nx. destruct x as [s | s | | s m e] eqn:Hx; try (now elim Nx).
  - discriminate.
  - discriminate.
  - apply round_fin; [assumption | assumption | exact I].
Qed.

(** *** Primitive comparisons in terms of ranks *)

Lemma SFcompare_not_nan (x y : spec_float) (c : comparison) :
  SFcompare x y = Some c -> not_nan x /\ not_nan y.
Proof.
  unfold not_nan. destruct x, y; cbn [SFcompare]; intros H; try discriminate;
    split; discriminate.
Qed.

(** A float comparison holds exactly when neither side is NaN and the
    ranks compare. *)
Lemma leb_rank (x y : float) :
  (x <=? y)%float = true <->
  not_nan (Prim2SF x) /\ not_nan (Prim2SF y) /\ rank (Prim2SF x) <= rank (Prim2SF y).
Proof.
  rewrite leb_spec. split.
  - intros H.
    assert (Hn : not_nan (Prim2SF x) /\ not_nan (Prim2SF y)).
    { unfold SFleb in H. destruct (SFcompare (Prim2SF x) (Prim2SF y)) eqn:Hc; [| discriminate].
      eapply SFcompare_not_nan; eauto. }
    destruct Hn as [Nx Ny]. split; [exact Nx | split; [exact Ny |]].
    apply SFleb_rank; auto using Prim2SF_valid.
  - intros [Nx [Ny Hr]]. apply SFleb_rank; auto using Prim2SF_valid.
Qed.

Lemma ltb_rank (x y : float) :
  (x <? y)%float = true <->
  not_nan (Prim2SF x) /\ not_nan (Prim2SF y) /\ rank (Prim2SF x) < rank (Prim2SF y).
Proof.
  rewrite ltb_spec. split.
  - intros H.
    assert (Hn : not_nan (Prim2SF x) /\ not_nan (Prim2SF y)).
    { unfold SFltb in H. destruct (SFcompare (Prim2SF x) (Prim2SF y)) eqn:Hc; [| discriminate].
      eapply SFcompare_not_nan; eauto. }
    destruct Hn as [Nx Ny]. split; [exact Nx | split; [exact Ny |]].
    apply SFltb_rank; auto using Prim2SF_valid.
  - intros [Nx [Ny Hr]]. apply SFltb_rank; auto using Prim2SF_valid.
Qed.

(** ** Primitive floats *)

Open Scope float_scope.

(** [is_finite] holds for the zeros and the finite non-zero floats. *)
Lemma is_finite_spec (x : float) : is_finite x = true <-> fin (Prim2SF x).
Proof.
  unfold is_finite, is_nan, is_infinity.
  rewrite !eqb_spec, abs_spec.
  change (Prim2SF infinity) with (S754_infinity false).
  pose proof (Prim2SF_valid x) as V.
  destruct (Prim2SF x) as [s | s | | s m e] eqn:Hx; cbn [SFabs fin].
  - split; [intros _; exact I | intros _; reflexivity].
  - split; [| contradiction]. unfold SFeqb. cbn [SFcompare]. destruct s; discriminate.
  - split; [| contradiction]. discriminate.
  - split; [intros _; exact I | intros _].
    unfold SFeqb at 1. rewrite SFcompare_rank by (assumption || discriminate).
    rewrite Z.compare_refl. reflexivity.
Qed.

(** A float between two finite floats is finite. *)
Lemma between_finite (a x b : float) :
  (a <=? x) = true -> (x <=? b) = true ->
  is_finite a = true -> is_finite b = true -> is_finite x = true.
Proof.
  intros Hax Hxb Fa Fb.
  apply leb_rank in Hax as [_ [Nx Hax]]. apply leb_rank in Hxb as [_ [_ Hxb]].
  apply is_finite_spec in Fa, Fb. apply is_finite_spec.
  pose proof (rank_fin_bound _ (Prim2SF_valid a) Fa) as Ba.
  pose proof (rank_fin_bound _ (Prim2SF_valid b) Fb) as Bb.
  destruct (Prim2SF x) as [s | s | | s m e]; try exact I.
  - destruct s; cbn [rank] in *; lia.
  - now elim Nx.
Qed.


Lemma eqb_rank (x y : float) :
  (x =? y) = true <->
  not_nan (Prim2SF x) /\ not_nan (Prim2SF y) /\ rank (Prim2SF x) = rank (Prim2SF y).
Proof.
  rewrite eqb_spec. unfold SFeqb. split.
  - intros H.
    destruct (SFcompare (Prim2SF x) (Prim2SF y)) as [c |] eqn:Hc; [| discriminate].
    destruct (SFcompare_not_nan _ _ _ Hc) as [Nx Ny].
    split; [exact Nx | split; [exact Ny |]].
    rewrite SFcompare_rank in Hc by auto using Prim2SF_valid.
    injection Hc as Hc. subst c.
    destruct (Z.compare_spec (rank (Prim2SF x)) (rank (Prim2SF y)));
      [assumption | discriminate | discriminate].
  - intros [Nx [Ny Hr]].
    rewrite SFcompare_rank by auto using Prim2SF_valid.
    rewrite Hr, Z.compare_refl. reflexivity.
Qed.

Lemma ltb_leb (x y : float) : (x <? y) = true -> (x <=? y) = true.
Proof.
  intros H. apply ltb_rank in H as [Nx [Ny Hr]].
  apply leb_rank. split; [exact Nx | split; [exact Ny | lia]].
Qed.

Lemma ltb_not_leb (x y : float) : (x <? y) = true -> (y <=? x) = false.
Proof.
  intros H. apply ltb_rank in H as [Nx [Ny Hr]].
  destruct (y <=? x) eqn:Hle; [| reflexivity].
  apply leb_rank in Hle as [_ [_ Hle]]. lia.
Qed.

(** A float that compares equal to a finite float differs from it by zero. *)
Lemma sub_self_zero (a b : float) :
  (a =? b) = true -> is_finite a = true -> (b - a =? 0) = true.
Proof.
  intros Heq Hfin.
  apply eqb_rank in Heq as [Na [Nb Hr]].
  apply is_finite_spec in Hfin.
  pose proof (Prim2SF_valid a) as Va. pose proof (Prim2SF_valid b) as Vb.
  pose proof (rank_fin_bound _ Va Hfin) as Ba.
  assert (Fb : fin (Prim2SF b)).
  { destruct (Prim2SF b) as [s | s | | s m e]; try exact I.
    - destruct s; cbn [rank] in Hr; lia.
    - now elim Nb. }
  apply eqb_rank. rewrite sub_spec.
  change (Prim2SF 0) with (S754_zero false). cbn [rank].
  assert (Hgoal : rank (SF64sub (Prim2SF b) (Prim2SF a)) = 0%Z
                  /\ not_nan (SF64sub (Prim2SF b) (Prim2SF a))).
  { set (A := Prim2SF a) in *. set (B := Prim2SF b) in *. clearbody A B.
    destruct A as [sa | sa | | sa ma ea]; try contradiction.
    - destruct B as [sb | sb | | sb mb eb]; try contradiction.
      + unfold SF64sub. destruct sa, sb; cbn; split; (reflexivity || discriminate).
      + pose proof (units_bounds _ _ _ Vb) as [Hu _].
        destruct sb; cbn [rank] in Hr; lia.
    - destruct (sub_fin sa ma ea B Va Vb Fb) as [Hrk Hnn].
      split; [| exact Hnn].
      rewrite Hrk, Hr, Z.sub_diag. unfold oddext, gsub.
      replace (0 <=? 0)%Z with true by reflexivity.
      rewrite RV_zero by lia. reflexivity. }
  destruct Hgoal as [H0 Hn]. split; [exact Hn | split; [discriminate | exact H0]].
Qed.

(** ** Checks of [Py.round] against CPython

    The values are the ones the interpreter prints: a tie of the exact binary
    value goes to the even decimal, a decimal literal that is not a float is
    rounded by its binary value, and a result that rounds to zero keeps its
    sign. *)

Example round_exact_tie : round 0.125 2 = 0.12 /\ round 2.5 0 = 2 /\ round 0.5 0 = 0.
Proof. repeat split; reflexivity. Qed.

Example round_binary_value : round 2.675 2 = 2.67 /\ round 0.0000005 6 = 0.
Proof. repeat split; reflexivity. Qed.

Example round_special_values :
  round (-1e-9) 6 = neg_zero /\ round infinity 6 = infinity
  /\ round 1e308 6 = 1e308 /\ round 123456789.1234567 6 = 123456789.123457.
Proof. repeat split; reflexivity. Qed.

(** ** The derived parameters *)

Lemma AL_spec : Prim2SF AL = S754_finite true 4744863893122486 (-50).
Proof. reflexivity. Qed.

Lemma ML_spec : Prim2SF ML = S754_finite false 8930727099078530 (-41).
Proof. reflexivity. Qed.

Lemma AV_spec : Prim2SF AV = S754_finite false 5630153101533571 (-49).
Proof. reflexivity. Qed.

Lemma MV_spec : Prim2SF MV = S754_finite true 5975472644120005 (-54).
Proof. reflexivity. Qed.

Lemma load_constants : load constants = Ret globals.
Proof. reflexivity. Qed.

(** ** The two volumes as functions of the pressure *)

(** With a positive slope the liquid volume never decreases. *)
Lemma liquid_mono (p1 p2 : float) :
  (p1 <=? p2) = true ->
  (round ((p1 - AL) / ML) 6 <=? round ((p2 - AL) / ML) 6) = true.
Proof.
  intros H. apply leb_rank in H as [N1 [N2 Hr]]. apply leb_rank.
  rewrite !round_spec, !div_spec, !sub_spec, AL_spec, ML_spec.
  assert (VAL : valid_binary (S754_finite true 4744863893122486 (-50)) = true)
    by reflexivity.
  pose proof (Prim2SF_valid p1) as V1. pose proof (Prim2SF_valid p2) as V2.
  set (x1 := Prim2SF p1) in *. set (x2 := Prim2SF p2) in *.
  set (cAL := S754_finite true 4744863893122486 (-50)) in *.
  set (cML := S754_finite false 8930727099078530 (-41)).
  assert (Va1 : valid_binary (SF64sub x1 cAL) = true)
    by (unfold x1, cAL; rewrite <- AL_spec, <- sub_spec; apply Prim2SF_valid).
  assert (Va2 : valid_binary (SF64sub x2 cAL) = true)
    by (unfold x2, cAL; rewrite <- AL_spec, <- sub_spec; apply Prim2SF_valid).
  assert (Na1 : not_nan (SF64sub x1 cAL)) by (apply sub_not_nan; assumption).
  assert (Na2 : not_nan (SF64sub x2 cAL)) by (apply sub_not_nan; assumption).
  assert (Vb1 : valid_binary (SF64div (SF64sub x1 cAL) cML) = true)
    by (unfold x1, cAL, cML;
        rewrite <- AL_spec, <- ML_spec, <- sub_spec, <- div_spec;
        apply Prim2SF_valid).
  assert (Vb2 : valid_binary (SF64div (SF64sub x2 cAL) cML) = true)
    by (unfold x2, cAL, cML;
        rewrite <- AL_spec, <- ML_spec, <- sub_spec, <- div_spec;
        apply Prim2SF_valid).
  assert (Nb1 : not_nan (SF64div (SF64sub x1 cAL) cML))
    by (apply div_not_nan; [lia | |]; assumption).
  assert (Nb2 : not_nan (SF64div (SF64sub x2 cAL) cML))
    by (apply div_not_nan; [lia | |]; assumption).
  split; [| split].
  - apply round_not_nan; [lia | |]; assumption.
  - apply round_not_nan; [lia | |]; assumption.
  - apply round_mono; try assumption; [lia |].
    apply div_pos_mono; try assumption; [lia |].
    apply sub_mono; assumption.
Qed.

(** With a negative slope the vapor volume never increases. *)
Lemma vapor_anti (p1 p2 : float) :
  (p1 <=? p2) = true ->
  (round ((p2 - AV) / MV) 6 <=? round ((p1 - AV) / MV) 6) = true.
Proof.
  intros H. apply leb_rank in H as [N1 [N2 Hr]]. apply leb_rank.
  rewrite !round_spec, !div_spec, !sub_spec, AV_spec, MV_spec.
  assert (VAV : valid_binary (S754_finite false 5630153101533571 (-49)) = true)
    by reflexivity.
  pose proof (Prim2SF_valid p1) as V1. pose proof (Prim2SF_valid p2) as V2.
  set (x1 := Prim2SF p1) in *. set (x2 := Prim2SF p2) in *.
  set (cAV := S754_finite false 5630153101533571 (-49)) in *.
  set (cMV := S754_finite true 5975472644120005 (-54)).
  assert (Va1 : valid_binary (SF64sub x1 cAV) = true)
    by (unfold x1, cAV; rewrite <- AV_spec, <- sub_spec; apply Prim2SF_valid).
  assert (Va2 : valid_binary (SF64sub x2 cAV) = true)
    by (unfold x2, cAV; rewrite <- AV_spec, <- sub_spec; apply Prim2SF_valid).
  assert (Na1 : not_nan (SF64sub x1 cAV)) by (apply sub_not_nan; assumption).
  assert (Na2 : not_nan (SF64sub x2 cAV)) by (apply sub_not_nan; assumption).
  assert (Vb1 : valid_binary (SF64div (SF64sub x1 cAV) cMV) = true)
    by (unfold x1, cAV, cMV;
        rewrite <- AV_spec, <- MV_spec, <- sub_spec, <- div_spec;
        apply Prim2SF_valid).
  assert (Vb2 : valid_binary (SF64div (SF64sub x2 cAV) cMV) = true)
    by (unfold x2, cAV, cMV;
        rewrite <- AV_spec, <- MV_spec, <- sub_spec, <- div_spec;
        apply Prim2SF_valid).
  assert (Nb1 : not_nan (SF64div (SF64sub x1 cAV) cMV))
    by (apply div_not_nan; [lia | |]; assumption).
  assert (Nb2 : not_nan (SF64div (SF64sub x2 cAV) cMV))
    by (apply div_not_nan; [lia | |]; assumption).
  split; [| split].
  - apply round_not_nan; [lia | |]; assumption.
  - apply round_not_nan; [lia | |]; assumption.
  - apply round_mono; try assumption; [lia |].
    apply div_neg_anti; try assumption; [lia |].
    apply sub_mono; assumption.
Qed.

(** ** The routes *)

(** A pressure that passes the query constraint reaches the formula, and
    neither division fails. *)
Lemma route_accepted (p : float) :
  (0 <=? p) = true ->
  phase_change_diagram globals p =
  Response {| specific_volume_liquid := round ((p - AL) / ML) 6;
              specific_volume_vapor := round ((p - AV) / MV) 6 |}.
Proof.
  intros Hp. unfold phase_change_diagram, query_ge0. rewrite Hp.
  unfold get_phase_change_diagram, compute_volumes, truediv.
  change (ml (derived globals)) with ML. change (mv (derived globals)) with MV.
  change (al (derived globals)) with AL. change (av (derived globals)) with AV.
  replace (ML =? 0) with false by reflexivity.
  replace (MV =? 0) with false by reflexivity.
  reflexivity.
Qed.

Lemma dispatch_state (req : request) (g : Globals) : snd (dispatch req g) = g.
Proof. destruct req; reflexivity. Qed.

Lemma run_state (reqs : list request) (g : Globals) : snd (run reqs g) = g.
Proof.
  revert g. induction reqs as [| req rest IH]; intros g; cbn [run].
  - reflexivity.
  - pose proof (dispatch_state req g) as Hd.
    destruct (dispatch req g) as [resp g1]. cbn [snd] in Hd. subst g1.
    specialize (IH g). destruct (run rest g) as [resps g2]. exact IH.
Qed.

(** A zero slope is reported as a client error by the handler. *)
Lemma zero_slope_is_400 (g : Globals) (p : float) :
  (ml (derived g) =? 0) = true \/ (mv (derived g) =? 0) = true ->
  get_phase_change_diagram g p
  = HTTPException 400 "Error de división por cero en los cálculos".
Proof.
  intros H. unfold get_phase_change_diagram, compute_volumes, truediv.
  destruct (ml (derived g) =? 0) eqn:Hml; [reflexivity |].
  destruct H as [H | H]; [discriminate |]. rewrite H. reflexivity.
Qed.

(** * The claims *)

(** C1.  For every pressure [p >= 0], with the default calibration constants
    (from which the import derives [ML], [MV], [AL] and [AV] by the two-point
    formulas), the evaluation returns [round((p - AL) / ML, 6)] as the liquid
    volume and [round((p - AV) / MV, 6)] as the vapor volume. *)
Theorem C1_evaluation_formula (p : float) :
  (0 <=? p) = true ->
  load constants = Ret globals
  /\ ML = (Y2 - Y1) / (X2 - X1) /\ MV = (Y3 - Y2) / (X3 - X2)
  /\ AL = Y2 - ML * X2 /\ AV = Y3 - MV * X3
  /\ phase_change_diagram globals p =
     Response {| specific_volume_liquid := round ((p - AL) / ML) 6;
                 specific_volume_vapor := round ((p - AV) / MV) 6 |}.
Proof.
  intros Hp. split; [exact load_constants |].
  repeat split; try reflexivity. now apply route_accepted.
Qed.

Lemma C1_witness :
  (0 <=? 5) = true
  /\ phase_change_diagram globals 5 =
     Response {| specific_volume_liquid := round ((5 - AL) / ML) 6;
                 specific_volume_vapor := round ((5 - AV) / MV) 6 |}.
Proof.
  split; [reflexivity |].
  apply (C1_evaluation_formula 5). reflexivity.
Defined.

(** C2, as stated: [ML] is about 3551.724138, [AL] about -2.431034 and the
    liquid volume at pressure 5.0 is 0.002095.  None of the three values is
    the one the code computes: [ML] is above 4061, [AL] below -4.2 and the
    volume is not 0.002095. *)
Lemma C2_spec_values_refuted :
  ~ (round ML 6 = 3551.724138
     /\ round AL 6 = -2.431034
     /\ exists v, phase_change_diagram globals 5.0 =
                  Response {| specific_volume_liquid := 0.002095;
                              specific_volume_vapor := v |}).
Proof.
  intros [H _]. apply (f_equal Prim2SF) in H. vm_compute in H. discriminate H.
Qed.

(** C2, amended.  With the default constants, [ML = (10 - 0.05) / (0.0035 -
    0.00105)] is 4061.22449 to six decimals, [AL = 10 - ML * 0.0035] is
    -4.214286 to six decimals, and the evaluation at pressure 5.0 returns the
    liquid volume 0.002269 (and the vapor volume 15.077118). *)
Theorem C2_concrete_scenario :
  ML = (10 - 0.05) / (0.0035 - 0.00105)
  /\ round ML 6 = 4061.22449
  /\ AL = 10 - ML * 0.0035
  /\ round AL 6 = -4.214286
  /\ phase_change_diagram globals 5.0 =
     Response {| specific_volume_liquid := 0.002269;
                 specific_volume_vapor := 15.077118 |}.
Proof. repeat split; reflexivity. Qed.

(** C3.  When the two x-values of a segment coincide (as finite numbers), the
    import of the module fails on the zero denominator, with Python's
    ZeroDivisionError, instead of binding an infinite slope. *)
Theorem C3_degenerate_calibration (c : Calibration) :
  ((x1 c =? x2 c) = true /\ is_finite (x1 c) = true)
  \/ ((x2 c =? x3 c) = true /\ is_finite (x2 c) = true) ->
  load c = Raise ZeroDivisionError.
Proof.
  intros H. unfold load, derive, truediv.
  destruct H as [[Heq Hfin] | [Heq Hfin]].
  - rewrite (sub_self_zero _ _ Heq Hfin). reflexivity.
  - destruct (x2 c - x1 c =? 0); [reflexivity |].
    cbn [bind]. rewrite (sub_self_zero _ _ Heq Hfin). reflexivity.
Qed.

Lemma C3_witness :
  (0.0035 =? 0.0035) = true /\ is_finite 0.0035 = true
  /\ load {| x1 := 0.0035; x2 := 0.0035; x3 := 30;
          y1 := 0.05; y2 := 10; y3 := 0.05 |} = Raise ZeroDivisionError.
Proof.
  split; [reflexivity | split; [reflexivity |]].
  apply C3_degenerate_calibration. left. split; reflexivity.
Defined.

(** C4, on the code: at pressure 1e308 the vapor volume overflows to minus
    infinity, passes the [isinstance] test and is returned in a normal
    response; no error is raised for the non-finite result. *)
Theorem C4_infinite_volume_returned :
  phase_change_diagram globals 1e308 =
  Response {| specific_volume_liquid := 2.4623115577889449e+304;
              specific_volume_vapor := neg_infinity |}.
Proof. reflexivity. Qed.

(** C5.  A negative pressure is refused by the query constraint, whatever the
    module state, and the refusal cannot come from the handler, whose results
    are responses and HTTP exceptions only. *)
Theorem C5_negative_pressure_rejected (g : Globals) (p : float) :
  (p <? 0) = true ->
  phase_change_diagram g p = RequestValidationError
  /\ forall q, get_phase_change_diagram g q <> RequestValidationError.
Proof.
  intros Hp. split.
  - unfold phase_change_diagram, query_ge0. now rewrite (ltb_not_leb _ _ Hp).
  - intros q. unfold get_phase_change_diagram.
    destruct (compute_volumes g q) as [r | []]; discriminate.
Qed.

Lemma C5_witness :
  (-1 <? 0) = true /\ phase_change_diagram globals (-1) = RequestValidationError.
Proof.
  split; [reflexivity |].
  apply (C5_negative_pressure_rejected globals (-1)). reflexivity.
Defined.

(** C6, as stated: for all pressures [0 <= p1 < p2] the liquid volume at [p1]
    is strictly below the one at [p2].  The pressures 5.0 and 5.0001 both give
    0.002269. *)
Lemma C6_not_strictly_increasing :
  ~ (forall p1 p2 r1 r2,
        (0 <=? p1) = true -> (p1 <? p2) = true ->
        phase_change_diagram globals p1 = Response r1 ->
        phase_change_diagram globals p2 = Response r2 ->
        (specific_volume_liquid r1 <? specific_volume_liquid r2) = true).
Proof.
  intros H.
  specialize (H 5.0 5.0001 _ _ eq_refl eq_refl eq_refl eq_refl).
  vm_compute in H. discriminate H.
Qed.

(** C6, amended.  With the default constants the returned liquid volume is
    non-decreasing in the pressure: for all pressures [0 <= p1 < p2] the
    liquid volume at [p1] is at most the one at [p2]. *)
Theorem C6_liquid_nondecreasing (p1 p2 : float) (r1 r2 : PhaseChangeResponse) :
  (0 <=? p1) = true -> (p1 <? p2) = true ->
  phase_change_diagram globals p1 = Response r1 ->
  phase_change_diagram globals p2 = Response r2 ->
  (specific_volume_liquid r1 <=? specific_volume_liquid r2) = true.
Proof.
  intros H0 Hlt E1 E2.
  assert (H2 : (0 <=? p2) = true).
  { apply leb_rank in H0 as [N0 [N1 Hr1]].
    apply ltb_rank in Hlt as [_ [N2 Hr2]].
    apply leb_rank. split; [exact N0 | split; [exact N2 | lia]]. }
  rewrite (route_accepted p1 H0) in E1. rewrite (route_accepted p2 H2) in E2.
  injection E1 as <-. injection E2 as <-. cbn [specific_volume_liquid].
  apply liquid_mono. now apply ltb_leb.
Qed.

Lemma C6_witness :
  (0 <=? 1) = true /\ (1 <? 2) = true
  /\ (specific_volume_liquid
     {| specific_volume_liquid := round ((1 - AL) / ML) 6;
        specific_volume_vapor := round ((1 - AV) / MV) 6 |}
   <=? specific_volume_liquid
     {| specific_volume_liquid := round ((2 - AL) / ML) 6;
        specific_volume_vapor := round ((2 - AV) / MV) 6 |}) = true.
Proof.
  split; [reflexivity | split; [reflexivity |]].
  apply (C6_liquid_nondecreasing 1 2); reflexivity.
Defined.

(** C7, as stated: for every pressure [p >= 0] the evaluation succeeds and
    returns two finite numbers.  At 1e308 the vapor volume is minus
    infinity. *)
Lemma C7_vapor_overflows :
  ~ (forall p, (0 <=? p) = true ->
       exists r, phase_change_diagram globals p = Response r
                 /\ is_finite (specific_volume_liquid r) = true
                 /\ is_finite (specific_volume_vapor r) = true).
Proof.
  intros H. destruct (H 1e308 eq_refl) as [r [Hr [_ Hv]]].
  vm_compute in Hr. injection Hr as <-. vm_compute in Hv. discriminate Hv.
Qed.

(** C7, amended.  With the default calibration constants both slopes are
    non-zero, and for every pressure [0 <= p <= 5.9e307], in particular
    [p = 0], the evaluation succeeds and returns two finite numbers. *)
Theorem C7_finite_on_range (p : float) :
  (0 <=? p) = true -> (p <=? 5.9e307) = true ->
  (ML =? 0) = false /\ (MV =? 0) = false
  /\ exists r, phase_change_diagram globals p = Response r
               /\ is_finite (specific_volume_liquid r) = true
               /\ is_finite (specific_volume_vapor r) = true.
Proof.
  intros H0 HB. split; [reflexivity | split; [reflexivity |]].
  eexists. split; [apply (route_accepted p H0) |].
  cbn [specific_volume_liquid specific_volume_vapor]. split.
  - apply (between_finite (round ((0 - AL) / ML) 6) _
                          (round ((5.9e307 - AL) / ML) 6)).
    + now apply liquid_mono.
    + now apply liquid_mono.
    + reflexivity.
    + reflexivity.
  - apply (between_finite (round ((5.9e307 - AV) / MV) 6) _
                          (round ((0 - AV) / MV) 6)).
    + now apply vapor_anti.
    + now apply vapor_anti.
    + reflexivity.
    + reflexivity.
Qed.

Lemma C7_witness :
  (0 <=? 0) = true /\ (0 <=? 5.9e307) = true
  /\ exists r, phase_change_diagram globals 0 = Response r
            /\ is_finite (specific_volume_liquid r) = true
            /\ is_finite (specific_volume_vapor r) = true.
Proof.
  split; [reflexivity | split; [reflexivity |]].
  apply (C7_finite_on_range 0); reflexivity.
Defined.

(** C8.  Whatever requests are served, the six calibration constants and the
    four derived parameters are left as the import bound them, and
    [/constants] returns exactly the values the evaluation reads. *)
Theorem C8_constants_never_mutated (reqs : list request) (p : float) :
  snd (run reqs globals) = globals
  /\ fst (dispatch GET_constants (snd (run reqs globals)))
     = Response (ConstantsBody
                   {| x1 := X1; x2 := X2; x3 := X3; y1 := Y1; y2 := Y2; y3 := Y3 |}
                   {| ml := ML; mv := MV; al := AL; av := AV |})
  /\ fst (dispatch (GET_phase_change_diagram p) (snd (run reqs globals)))
     = http_map PhaseBody
         (phase_change_diagram
            {| calibration := constants;
               derived := {| ml := ML; mv := MV; al := AL; av := AV |} |} p).
Proof.
  rewrite run_state. repeat split; reflexivity.
Qed.

(** C9.  Two evaluations at the same pressure give the same result (the same
    volumes or the same error), whatever the module state and whatever is
    served in between. *)
Theorem C9_deterministic (g : Globals) (reqs : list request) (p : float) :
  fst (dispatch (GET_phase_change_diagram p)
         (snd (run (GET_phase_change_diagram p :: reqs) g)))
  = fst (dispatch (GET_phase_change_diagram p) g).
Proof. now rewrite run_state. Qed.

(** C10.  The evaluation inverts the calibration lines at the calibration
    points: at pressure [Y2] both volumes are [X2], at pressure [Y1] the
    liquid volume is [X1] and at pressure [Y3] the vapor volume is [X3]. *)
Theorem C10_calibration_points :
  phase_change_diagram globals Y2 =
    Response {| specific_volume_liquid := X2; specific_volume_vapor := X2 |}
  /\ (exists v, phase_change_diagram globals Y1 =
        Response {| specific_volume_liquid := X1; specific_volume_vapor := v |})
  /\ (exists l, phase_change_diagram globals Y3 =
        Response {| specific_volume_liquid := l; specific_volume_vapor := X3 |})
  /\ X2 = 0.0035 /\ X1 = 0.00105 /\ X3 = 30.
Proof.
  split; [reflexivity |].
  split; [eexists; reflexivity |].
  split; [eexists; reflexivity |].
  repeat split; reflexivity.
Qed.

(** * Further properties of the code *)

(** ** Further facts on ranks and primitive floats *)

Lemma leb_trans (x y z : float) :
  (x <=? y) = true -> (y <=? z) = true -> (x <=? z) = true.
Proof.
  intros H1 H2. apply leb_rank in H1 as [Nx [_ H1]]. apply leb_rank in H2 as [_ [Nz H2]].
  apply leb_rank. split; [exact Nx | split; [exact Nz | lia]].
Qed.

Lemma grid_pos (v : Z) : (0 < v)%Z -> (0 < grid v)%Z.
Proof.
  intros Hv. unfold grid. destruct v as [| p | p]; try lia.
  set (k := Z.max (Zpos (digits2_pos p) - 53) 0).
  pose proof (mk_quotient_pos (Zpos p) k ltac:(lia) eq_refl) as [Hq _].
  assert (H2k : (0 < 2 ^ k)%Z) by (apply Z.pow_pos_nonneg; unfold k; lia).
  destruct (k <=? 2045)%Z; [nia | apply Z.pow_pos_nonneg; lia].
Qed.

Lemma gsub_pos (z : Z) : (0 < z)%Z -> (0 < gsub z)%Z.
Proof.
  intros Hz. unfold gsub. apply grid_pos. unfold RV.
  pose proof (lev_nonneg z 1) as Hk.
  pose proof (lev_quotient z 1 ltac:(lia) ltac:(lia)) as [Hq Hq'].
  assert (H2k : (0 < 2 ^ lev z 1)%Z) by (apply Z.pow_pos_nonneg; lia).
  pose proof (Zrne_bounds z (1 * 2 ^ lev z 1) ltac:(lia)) as Hb.
  assert (Hq1 : (1 <= z / (1 * 2 ^ lev z 1))%Z).
  { destruct (Z.eq_dec (lev z 1) 0) as [H0 | H0].
    - rewrite H0, Z.pow_0_r, Z.mul_1_l, Z.div_1_r. lia.
    - specialize (Hq' ltac:(lia)). lia. }
  apply Z.mul_pos_pos; lia.
Qed.

Lemma oddext_gsub_zero (z : Z) : oddext gsub z = 0%Z -> z = 0%Z.
Proof.
  unfold oddext. destruct (Z.leb_spec 0 z) as [H | H]; intros E.
  - destruct (Z.eq_dec z 0) as [H0 | H0]; [exact H0 |].
    pose proof (gsub_pos z ltac:(lia)). lia.
  - pose proof (gsub_pos (- z) ltac:(lia)). lia.
Qed.

Lemma eqb_zero_rank (x : float) :
  (x =? 0) = true <-> not_nan (Prim2SF x) /\ rank (Prim2SF x) = 0%Z.
Proof.
  rewrite eqb_rank. change (Prim2SF 0) with (S754_zero false). cbn [rank].
  split; [intros [H1 [_ H2]]; now split | intros [H1 H2]; split; [exact H1 | split; [discriminate | exact H2]]].
Qed.

(** The difference of two floats, the subtrahend finite, is zero exactly when
    they compare equal: binary64 has gradual underflow. *)
Lemma sub_zero_iff (a b : float) :
  is_finite a = true -> (b - a =? 0) = (a =? b).
Proof.
  intros Hfin. apply Bool.eq_true_iff_eq. split; [| intros H; now apply sub_self_zero].
  intros H. apply eqb_zero_rank in H as [Hn H0]. rewrite sub_spec in Hn, H0.
  apply is_finite_spec in Hfin.
  pose proof (Prim2SF_valid a) as Va. pose proof (Prim2SF_valid b) as Vb.
  apply eqb_rank.
  set (A := Prim2SF a) in *. set (B := Prim2SF b) in *. clearbody A B.
  destruct A as [sa | sa | | sa ma ea]; try contradiction.
  - destruct B as [sb | sb | | sb mb eb].
    + split; [discriminate | split; [discriminate | reflexivity]].
    + exfalso. assert (Hp : (0 < 2 ^ 2098)%Z) by (apply Z.pow_pos_nonneg; lia).
      unfold SF64sub in H0. destruct sb; cbn in H0; lia.
    + exfalso. now apply Hn.
    + exfalso. pose proof (units_bounds _ _ _ Vb) as [Hu _].
      unfold SF64sub in H0. cbn [SFsub rank] in H0. destruct sb; lia.
  - destruct B as [sb | sb | | sb mb eb].
    + destruct (sub_fin sa ma ea (S754_zero sb) Va Vb I) as [Hrk _].
      rewrite Hrk in H0. apply oddext_gsub_zero in H0.
      split; [discriminate | split; [discriminate | lia]].
    + exfalso. assert (Hp : (0 < 2 ^ 2098)%Z) by (apply Z.pow_pos_nonneg; lia).
      unfold SF64sub in H0. destruct sb; cbn in H0; lia.
    + exfalso. now apply Hn.
    + destruct (sub_fin sa ma ea (S754_finite sb mb eb) Va Vb I) as [Hrk _].
      rewrite Hrk in H0. apply oddext_gsub_zero in H0.
      split; [discriminate | split; [discriminate | lia]].
Qed.

(** The difference of two finite floats is never NaN. *)
Lemma sub_finite_not_nan (a b : float) :
  is_finite a = true -> is_finite b = true -> not_nan (Prim2SF (b - a)).
Proof.
  intros Ha Hb. apply is_finite_spec in Ha, Hb. rewrite sub_spec.
  pose proof (Prim2SF_valid a) as Va. pose proof (Prim2SF_valid b) as Vb.
  set (A := Prim2SF a) in *. set (B := Prim2SF b) in *. clearbody A B.
  destruct A as [sa | sa | | sa ma ea]; try contradiction.
  - destruct B as [sb | sb | | sb mb eb]; try contradiction.
    + unfold SF64sub. destruct sb, sa; discriminate.
    + discriminate.
  - now apply sub_fin.
Qed.

(** A zero divided by a non-zero number is a zero. *)
Lemma div_zero_l (z d : float) :
  (z =? 0) = true -> (d =? 0) = false -> not_nan (Prim2SF d) -> (z / d =? 0) = true.
Proof.
  intros Hz Hd Nd.
  apply eqb_zero_rank in Hz as [Nz Hz].
  assert (Hd' : rank (Prim2SF d) <> 0%Z).
  { intros E. rewrite (proj2 (eqb_zero_rank d) (conj Nd E)) in Hd. discriminate. }
  apply eqb_zero_rank. rewrite div_spec.
  pose proof (Prim2SF_valid z) as Vz.
  set (Zr := Prim2SF z) in *. set (D := Prim2SF d) in *. clearbody Zr D.
  destruct Zr as [sz | sz | | sz mz ez].
  - destruct D as [sd | sd | | sd md ed].
    + now elim Hd'.
    + split; [discriminate | reflexivity].
    + now elim Nd.
    + split; [discriminate | reflexivity].
  - exfalso. assert (Hp : (0 < 2 ^ 2098)%Z) by (apply Z.pow_pos_nonneg; lia).
    destruct sz; cbn [rank] in Hz; lia.
  - now elim Nz.
  - exfalso. pose proof (units_bounds _ _ _ Vz) as [Hu _].
    destruct sz; cbn [rank] in Hz; lia.
Qed.

Lemma leb_neg_infinity (x : float) : (x <=? neg_infinity) = true -> x = neg_infinity.
Proof.
  intros H. apply leb_rank in H as [Nx [_ Hr]].
  change (Prim2SF neg_infinity) with (S754_infinity true) in Hr. cbn [rank] in Hr.
  apply Prim2SF_inj. change (Prim2SF neg_infinity) with (S754_infinity true).
  pose proof (Prim2SF_valid x) as Vx.
  assert (Hp : (0 < 2 ^ 2098)%Z) by (apply Z.pow_pos_nonneg; lia).
  destruct (Prim2SF x) as [s | s | | s m e].
  - cbn [rank] in Hr. lia.
  - destruct s; [reflexivity | cbn [rank] in Hr; lia].
  - now elim Nx.
  - pose proof (units_bounds _ _ _ Vx) as [Hu _]. destruct s; cbn [rank] in Hr; lia.
Qed.

(** Every finite float is at most the largest finite one. *)
Lemma finite_le_max (x : float) :
  is_finite x = true -> (x <=? 1.7976931348623157e308) = true.
Proof.
  intros H. apply is_finite_spec in H. apply leb_rank.
  change (Prim2SF 1.7976931348623157e308)
    with (S754_finite false 9007199254740991 971).
  pose proof (Prim2SF_valid x) as Vx.
  destruct (Prim2SF x) as [s | s | | s m e]; try contradiction.
  - split; [discriminate | split; [discriminate |]]. cbn [rank]. unfold units.
    apply Z.mul_nonneg_nonneg; [lia | apply Z.pow_nonneg; lia].
  - split; [discriminate | split; [discriminate |]].
    pose proof (units_bounds _ _ _ Vx) as [Hu _].
    pose proof (valid_finite _ _ _ Vx) as [He [Hd _]].
    pose proof (digits2_pos_bounds m) as [_ Hhi].
    assert (Hm : (Zpos m < 2 ^ 53)%Z).
    { apply Z.lt_le_trans with (1 := Hhi). apply Z.pow_le_mono_r; lia. }
    cbn [rank]. destruct s.
    + unfold units in *. assert (0 < 9007199254740991 * 2 ^ (971 + 1074))%Z by
        (apply Z.mul_pos_pos; [lia | apply Z.pow_pos_nonneg; lia]). lia.
    + unfold units.
      assert (Hpw : (2 ^ (e + 1074) <= 2 ^ (971 + 1074))%Z) by (apply Z.pow_le_mono_r; lia).
      assert (H2e : (0 < 2 ^ (e + 1074))%Z) by (apply Z.pow_pos_nonneg; lia).
      change (2 ^ 53)%Z with 9007199254740992%Z in Hm.
      apply Z.le_trans with (m := (9007199254740991 * 2 ^ (e + 1074))%Z).
      * apply Z.mul_le_mono_nonneg_r; lia.
      * apply Z.mul_le_mono_nonneg_l; lia.
Qed.

(** A non-NaN float that is not finite and not negative is plus infinity. *)
Lemma accepted_not_finite (p : float) :
  (0 <=? p) = true -> is_finite p = false -> p = infinity.
Proof.
  intros H0 Hf. apply leb_rank in H0 as [_ [Np Hr]].
  change (Prim2SF 0) with (S754_zero false) in Hr. cbn [rank] in Hr.
  apply Prim2SF_inj. change (Prim2SF infinity) with (S754_infinity false).
  assert (Hnf : ~ fin (Prim2SF p)).
  { intros F. apply is_finite_spec in F. rewrite F in Hf. discriminate. }
  assert (Hp : (0 < 2 ^ 2098)%Z) by (apply Z.pow_pos_nonneg; lia).
  destruct (Prim2SF p) as [s | s | | s m e].
  - elim Hnf. exact I.
  - destruct s; [cbn [rank] in Hr; lia | reflexivity].
  - now elim Np.
  - elim Hnf. exact I.
Qed.

(** Subtracting a finite constant keeps the order, and never gives NaN on a
    non-NaN argument. *)
Lemma sub_const_mono (a p1 p2 : float) :
  is_finite a = true -> (p1 <=? p2) = true ->
  not_nan (Prim2SF (p1 - a)) /\ not_nan (Prim2SF (p2 - a))
  /\ (rank (Prim2SF (p1 - a)) <= rank (Prim2SF (p2 - a)))%Z.
Proof.
  intros Ha Hle. apply is_finite_spec in Ha.
  apply leb_rank in Hle as [N1 [N2 Hr]].
  rewrite !sub_spec.
  pose proof (Prim2SF_valid a) as Va.
  pose proof (Prim2SF_valid p1) as V1. pose proof (Prim2SF_valid p2) as V2.
  set (A := Prim2SF a) in *. set (x1 := Prim2SF p1) in *. set (x2 := Prim2SF p2) in *.
  clearbody A x1 x2.
  destruct A as [sa | sa | | sa ma ea]; try contradiction.
  - assert (Hz : forall x, not_nan x ->
              not_nan (SF64sub x (S754_zero sa))
              /\ rank (SF64sub x (S754_zero sa)) = rank x).
    { intros x Nx. unfold SF64sub.
      destruct x as [s | s | | s m e]; [| | now elim Nx |].
      - destruct s, sa; cbn; split; (discriminate || reflexivity).
      - cbn. split; [discriminate | reflexivity].
      - cbn [SFsub]. split; [discriminate | reflexivity]. }
    destruct (Hz x1 N1) as [M1 E1]. destruct (Hz x2 N2) as [M2 E2].
    split; [exact M1 | split; [exact M2 |]]. rewrite E1, E2. exact Hr.
  - split; [now apply sub_not_nan | split; [now apply sub_not_nan |]].
    now apply sub_mono.
Qed.

(** A float strictly between [0] and [2^53] is a positive finite float
    whose exponent is not positive; likewise between [-2^53] and [0]. *)
Lemma small_positive (m : float) :
  (0 <? m) = true -> (m <? 9007199254740992) = true ->
  exists mc ec, Prim2SF m = S754_finite false mc ec /\ (ec <= 0)%Z.
Proof.
  intros H0 H1.
  apply ltb_rank in H0 as [_ [Nm H0]]. apply ltb_rank in H1 as [_ [_ H1]].
  change (Prim2SF 0) with (S754_zero false) in H0.
  change (Prim2SF 9007199254740992) with (S754_finite false 4503599627370496 1) in H1.
  cbn [rank] in H0, H1. unfold units in H1.
  change (Z.pos 4503599627370496 * 2 ^ (1 + 1074))%Z with (2 ^ (52 + (1 + 1074)))%Z in H1.
  pose proof (Prim2SF_valid m) as Vm.
  assert (Hp : (0 < 2 ^ 2098)%Z) by (apply Z.pow_pos_nonneg; lia).
  assert (Hq : (2 ^ (52 + (1 + 1074)) <= 2 ^ 2098)%Z) by (apply Z.pow_le_mono_r; lia).
  destruct (Prim2SF m) as [s | s | | s mc ec]; cbn [rank] in H0, H1.
  - lia.
  - destruct s; lia.
  - now elim Nm.
  - pose proof (units_bounds _ _ _ Vm) as [Hu [_ Hlo]].
    destruct s; [lia |].
    exists mc, ec. split; [reflexivity |].
    destruct (Z_le_gt_dec ec 0) as [H | H]; [exact H | exfalso].
    pose proof (valid_finite _ _ _ Vm) as [He _].
    specialize (Hlo ltac:(lia)).
    assert (2 ^ (52 + (1 + 1074)) <= 2 ^ (52 + (ec + 1074)))%Z
      by (apply Z.pow_le_mono_r; lia).
    lia.
Qed.

Lemma small_negative (m : float) :
  (m <? 0) = true -> (-9007199254740992 <? m) = true ->
  exists mc ec, Prim2SF m = S754_finite true mc ec /\ (ec <= 0)%Z.
Proof.
  intros H0 H1.
  apply ltb_rank in H0 as [Nm [_ H0]]. apply ltb_rank in H1 as [_ [_ H1]].
  change (Prim2SF 0) with (S754_zero false) in H0.
  change (Prim2SF (-9007199254740992)) with (S754_finite true 4503599627370496 1) in H1.
  cbn [rank] in H0, H1. unfold units in H1.
  change (Z.pos 4503599627370496 * 2 ^ (1 + 1074))%Z with (2 ^ (52 + (1 + 1074)))%Z in H1.
  pose proof (Prim2SF_valid m) as Vm.
  assert (Hp : (0 < 2 ^ 2098)%Z) by (apply Z.pow_pos_nonneg; lia).
  assert (Hq : (2 ^ (52 + (1 + 1074)) <= 2 ^ 2098)%Z) by (apply Z.pow_le_mono_r; lia).
  destruct (Prim2SF m) as [s | s | | s mc ec]; cbn [rank] in H0, H1.
  - lia.
  - destruct s; lia.
  - now elim Nm.
  - pose proof (units_bounds _ _ _ Vm) as [Hu [_ Hlo]].
    destruct s; [| lia].
    exists mc, ec. split; [reflexivity |].
    destruct (Z_le_gt_dec ec 0) as [H | H]; [exact H | exfalso].
    pose proof (valid_finite _ _ _ Vm) as [He _].
    specialize (Hlo ltac:(lia)).
    assert (2 ^ (52 + (1 + 1074)) <= 2 ^ (52 + (ec + 1074)))%Z
      by (apply Z.pow_le_mono_r; lia).
    lia.
Qed.

(** One branch of the handler, [round((p - a) / m, 6)], for a finite
    intercept [a]: non-decreasing in [p] for a slope in [(0, 2^53)],
    non-increasing for a slope in [(-2^53, 0)]. *)
Lemma branch_mono (a m p1 p2 : float) :
  is_finite a = true ->
  (0 <? m) = true -> (m <? 9007199254740992) = true ->
  (p1 <=? p2) = true ->
  (round ((p1 - a) / m) 6 <=? round ((p2 - a) / m) 6) = true.
Proof.
  intros Ha H0 H1 Hle.
  destruct (small_positive m H0 H1) as [mc [ec [Hm Hec]]].
  destruct (sub_const_mono a p1 p2 Ha Hle) as [N1 [N2 Hr]].
  apply leb_rank. rewrite !round_spec, !div_spec, Hm.
  pose proof (Prim2SF_valid (p1 - a)) as V1. pose proof (Prim2SF_valid (p2 - a)) as V2.
  pose proof (Prim2SF_valid ((p1 - a) / m)) as W1.
  pose proof (Prim2SF_valid ((p2 - a) / m)) as W2.
  rewrite div_spec, Hm in W1, W2.
  set (x1 := Prim2SF (p1 - a)) in *. set (x2 := Prim2SF (p2 - a)) in *.
  assert (M1 : not_nan (SF64div x1 (S754_finite false mc ec))) by now apply div_not_nan.
  assert (M2 : not_nan (SF64div x2 (S754_finite false mc ec))) by now apply div_not_nan.
  split; [| split].
  - apply round_not_nan; [lia | |]; assumption.
  - apply round_not_nan; [lia | |]; assumption.
  - apply round_mono; try assumption; [lia |].
    now apply div_pos_mono.
Qed.

Lemma branch_anti (a m p1 p2 : float) :
  is_finite a = true ->
  (m <? 0) = true -> (-9007199254740992 <? m) = true ->
  (p1 <=? p2) = true ->
  (round ((p2 - a) / m) 6 <=? round ((p1 - a) / m) 6) = true.
Proof.
  intros Ha H0 H1 Hle.
  destruct (small_negative m H0 H1) as [mc [ec [Hm Hec]]].
  destruct (sub_const_mono a p1 p2 Ha Hle) as [N1 [N2 Hr]].
  apply leb_rank. rewrite !round_spec, !div_spec, Hm.
  pose proof (Prim2SF_valid (p1 - a)) as V1. pose proof (Prim2SF_valid (p2 - a)) as V2.
  pose proof (Prim2SF_valid ((p1 - a) / m)) as W1.
  pose proof (Prim2SF_valid ((p2 - a) / m)) as W2.
  rewrite div_spec, Hm in W1, W2.
  set (x1 := Prim2SF (p1 - a)) in *. set (x2 := Prim2SF (p2 - a)) in *.
  assert (M1 : not_nan (SF64div x1 (S754_finite true mc ec))) by now apply div_not_nan.
  assert (M2 : not_nan (SF64div x2 (S754_finite true mc ec))) by now apply div_not_nan.
  split; [| split].
  - apply round_not_nan; [lia | |]; assumption.
  - apply round_not_nan; [lia | |]; assumption.
  - apply round_mono; try assumption; [lia |].
    now apply div_neg_anti.
Qed.

(** A response of the handler holds the two rounded quotients. *)
Lemma handler_response (g : Globals) (p : float) (r : PhaseChangeResponse) :
  get_phase_change_diagram g p = Response r ->
  r = {| specific_volume_liquid := round ((p - al (derived g)) / ml (derived g)) 6;
         specific_volume_vapor := round ((p - av (derived g)) / mv (derived g)) 6 |}.
Proof.
  unfold get_phase_change_diagram, compute_volumes, truediv.
  destruct (ml (derived g) =? 0); [discriminate |].
  destruct (mv (derived g) =? 0); [discriminate |].
  cbn. intros H. injection H as <-. reflexivity.
Qed.

(** ** The properties *)

(** X1.  For any module parameters with a finite liquid intercept and a
    liquid slope in (0, 2^53), the liquid volume of the handler's responses
    is non-decreasing in the pressure. *)
Theorem X1_liquid_positive_slope
  (g : Globals) (p1 p2 : float) (r1 r2 : PhaseChangeResponse) :
  is_finite (al (derived g)) = true ->
  (0 <? ml (derived g)) = true -> (ml (derived g) <? 9007199254740992) = true ->
  (p1 <=? p2) = true ->
  get_phase_change_diagram g p1 = Response r1 ->
  get_phase_change_diagram g p2 = Response r2 ->
  (specific_volume_liquid r1 <=? specific_volume_liquid r2) = true.
Proof.
  intros Ha H0 H1 Hle E1 E2.
  apply handler_response in E1, E2. subst r1 r2. cbn [specific_volume_liquid].
  now apply branch_mono.
Qed.

Lemma X1_witness :
  is_finite (al (derived globals)) = true
  /\ (0 <? ml (derived globals)) = true
  /\ (ml (derived globals) <? 9007199254740992) = true
  /\ (1 <=? 2) = true
  /\ (round ((1 - AL) / ML) 6 <=? round ((2 - AL) / ML) 6) = true.
Proof.
  repeat (split; [reflexivity |]).
  exact (X1_liquid_positive_slope globals 1 2 _ _
           eq_refl eq_refl eq_refl eq_refl eq_refl eq_refl).
Defined.

(** X2.  For any module parameters with a finite vapor intercept and a
    vapor slope in (-2^53, 0), the vapor volume of the handler's responses
    is non-increasing in the pressure. *)
Theorem X2_vapor_negative_slope
  (g : Globals) (p1 p2 : float) (r1 r2 : PhaseChangeResponse) :
  is_finite (av (derived g)) = true ->
  (mv (derived g) <? 0) = true -> (-9007199254740992 <? mv (derived g)) = true ->
  (p1 <=? p2) = true ->
  get_phase_change_diagram g p1 = Response r1 ->
  get_phase_change_diagram g p2 = Response r2 ->
  (specific_volume_vapor r2 <=? specific_volume_vapor r1) = true.
Proof.
  intros Ha H0 H1 Hle E1 E2.
  apply handler_response in E1, E2. subst r1 r2. cbn [specific_volume_vapor].
  now apply branch_anti.
Qed.

Lemma X2_witness :
  is_finite (av (derived globals)) = true
  /\ (mv (derived globals) <? 0) = true
  /\ (-9007199254740992 <? mv (derived globals)) = true
  /\ (1 <=? 2) = true
  /\ (round ((2 - AV) / MV) 6 <=? round ((1 - AV) / MV) 6) = true.
Proof.
  repeat (split; [reflexivity |]).
  exact (X2_vapor_negative_slope globals 1 2 _ _
           eq_refl eq_refl eq_refl eq_refl eq_refl eq_refl).
Defined.

(** X3.  For every accepted pressure the liquid volume is at least 0.001038
    and the vapor volume at most 30.150736, their values at pressure zero. *)
Theorem X3_volume_bounds (p : float) :
  (0 <=? p) = true ->
  exists r, phase_change_diagram globals p = Response r
            /\ (0.001038 <=? specific_volume_liquid r) = true
            /\ (specific_volume_vapor r <=? 30.150736) = true.
Proof.
  intros H0. eexists. split; [apply (route_accepted p H0) |].
  cbn [specific_volume_liquid specific_volume_vapor]. split.
  - change 0.001038 with (round ((0 - AL) / ML) 6). now apply liquid_mono.
  - change 30.150736 with (round ((0 - AV) / MV) 6). now apply vapor_anti.
Qed.

Lemma X3_witness :
  (0 <=? 5) = true
  /\ exists r, phase_change_diagram globals 5 = Response r
               /\ (0.001038 <=? specific_volume_liquid r) = true
               /\ (specific_volume_vapor r <=? 30.150736) = true.
Proof.
  split; [reflexivity |]. apply (X3_volume_bounds 5). reflexivity.
Defined.

(** X4.  Up to the pressure [Y2 = 10] of the middle calibration point the
    liquid volume is at most [X2 = 0.0035] and the vapor volume at least
    that: the liquid volume does not exceed the vapor volume. *)
Theorem X4_below_middle_point (p : float) :
  (0 <=? p) = true -> (p <=? Y2) = true ->
  exists r, phase_change_diagram globals p = Response r
            /\ (specific_volume_liquid r <=? X2) = true
            /\ (X2 <=? specific_volume_vapor r) = true
            /\ (specific_volume_liquid r <=? specific_volume_vapor r) = true.
Proof.
  intros H0 Hle. eexists. split; [apply (route_accepted p H0) |].
  cbn [specific_volume_liquid specific_volume_vapor].
  assert (Hl : (round ((p - AL) / ML) 6 <=? X2) = true).
  { change X2 with (round ((Y2 - AL) / ML) 6). now apply liquid_mono. }
  assert (Hv : (X2 <=? round ((p - AV) / MV) 6) = true).
  { change X2 with (round ((Y2 - AV) / MV) 6). now apply vapor_anti. }
  split; [exact Hl | split; [exact Hv |]].
  exact (leb_trans _ _ _ Hl Hv).
Qed.

Lemma X4_witness :
  (0 <=? 5) = true /\ (5 <=? Y2) = true
  /\ exists r, phase_change_diagram globals 5 = Response r
               /\ (specific_volume_liquid r <=? X2) = true
               /\ (X2 <=? specific_volume_vapor r) = true
               /\ (specific_volume_liquid r <=? specific_volume_vapor r) = true.
Proof.
  split; [reflexivity | split; [reflexivity |]].
  apply (X4_below_middle_point 5); reflexivity.
Defined.

(** X5.  From the pressure [Y2 = 10] on the order is reversed: the vapor
    volume is at most [X2 = 0.0035] and the liquid volume at least that. *)
Theorem X5_above_middle_point (p : float) :
  (Y2 <=? p) = true ->
  exists r, phase_change_diagram globals p = Response r
            /\ (specific_volume_vapor r <=? X2) = true
            /\ (X2 <=? specific_volume_liquid r) = true
            /\ (specific_volume_vapor r <=? specific_volume_liquid r) = true.
Proof.
  intros Hle.
  assert (H0 : (0 <=? p) = true) by (apply (leb_trans 0 Y2 p); [reflexivity | exact Hle]).
  eexists. split; [apply (route_accepted p H0) |].
  cbn [specific_volume_liquid specific_volume_vapor].
  assert (Hv : (round ((p - AV) / MV) 6 <=? X2) = true).
  { change X2 with (round ((Y2 - AV) / MV) 6). now apply vapor_anti. }
  assert (Hl : (X2 <=? round ((p - AL) / ML) 6) = true).
  { change X2 with (round ((Y2 - AL) / ML) 6). now apply liquid_mono. }
  split; [exact Hv | split; [exact Hl |]].
  exact (leb_trans _ _ _ Hv Hl).
Qed.

Lemma X5_witness :
  (Y2 <=? 20) = true
  /\ exists r, phase_change_diagram globals 20 = Response r
               /\ (specific_volume_vapor r <=? X2) = true
               /\ (X2 <=? specific_volume_liquid r) = true
               /\ (specific_volume_vapor r <=? specific_volume_liquid r) = true.
Proof.
  split; [reflexivity |]. apply (X5_above_middle_point 20). reflexivity.
Defined.

(** The import, case by case, for finite [x1] and [x2]. *)
Lemma load_finite (c : Calibration) :
  is_finite (x1 c) = true -> is_finite (x2 c) = true ->
  load c =
  if (x1 c =? x2 c) || (x2 c =? x3 c) then Raise ZeroDivisionError
  else
    let ML := (y2 c - y1 c) / (x2 c - x1 c) in
    let MV := (y3 c - y2 c) / (x3 c - x2 c) in
    Ret {| calibration := c;
           derived := {| ml := ML; mv := MV;
                         al := y2 c - ML * x2 c; av := y3 c - MV * x3 c |} |}.
Proof.
  intros F1 F2. unfold load, derive, truediv.
  rewrite (sub_zero_iff _ _ F1), (sub_zero_iff _ _ F2).
  destruct (x1 c =? x2 c); [reflexivity |].
  destruct (x2 c =? x3 c); reflexivity.
Qed.

(** X6.  For finite [x1] and [x2] the import fails, with ZeroDivisionError,
    exactly when [x1 == x2] or [x2 == x3]; otherwise it binds the four
    parameters of the two-point formulas. *)
Theorem X6_load_outcomes (c : Calibration) :
  is_finite (x1 c) = true -> is_finite (x2 c) = true ->
  (load c = Raise ZeroDivisionError
   <-> (x1 c =? x2 c) = true \/ (x2 c =? x3 c) = true)
  /\ (load c <> Raise ZeroDivisionError ->
      let ML := (y2 c - y1 c) / (x2 c - x1 c) in
      let MV := (y3 c - y2 c) / (x3 c - x2 c) in
      load c =
      Ret {| calibration := c;
             derived := {| ml := ML; mv := MV;
                           al := y2 c - ML * x2 c; av := y3 c - MV * x3 c |} |}).
Proof.
  intros F1 F2. rewrite (load_finite c F1 F2).
  destruct (x1 c =? x2 c), (x2 c =? x3 c); cbn [orb]; split;
    try (split; [intros _; auto | intros _; reflexivity]);
    try (intros H; now elim H);
    try (intros _; reflexivity).
  split; [discriminate | intros [H | H]; discriminate].
Qed.

Lemma X6_witness :
  is_finite X1 = true /\ is_finite X2 = true
  /\ load constants = Ret globals.
Proof.
  split; [reflexivity | split; [reflexivity |]].
  apply (X6_load_outcomes constants eq_refl eq_refl). discriminate.
Defined.

(** X7.  From the pressure 5.97e307 on, the vapor volume overflows: the
    handler returns minus infinity for it, in a normal response. *)
Theorem X7_vapor_overflow (p : float) :
  (5.97e307 <=? p) = true ->
  phase_change_diagram globals p =
  Response {| specific_volume_liquid := round ((p - AL) / ML) 6;
              specific_volume_vapor := neg_infinity |}.
Proof.
  intros Hle.
  assert (H0 : (0 <=? p) = true)
    by (apply (leb_trans 0 5.97e307 p); [reflexivity | exact Hle]).
  rewrite (route_accepted p H0). do 2 f_equal.
  apply leb_neg_infinity.
  change neg_infinity with (round ((5.97e307 - AV) / MV) 6).
  now apply vapor_anti.
Qed.

Lemma X7_witness :
  (5.97e307 <=? 1e308) = true
  /\ phase_change_diagram globals 1e308 =
     Response {| specific_volume_liquid := round ((1e308 - AL) / ML) 6;
                 specific_volume_vapor := neg_infinity |}.
Proof.
  split; [reflexivity |]. apply (X7_vapor_overflow 1e308). reflexivity.
Defined.

(** X8.  For an accepted pressure the liquid volume is finite exactly when
    the pressure is: it never overflows, and only the pressure [inf] gives
    [inf]. *)
Theorem X8_liquid_finite (p : float) :
  (0 <=? p) = true ->
  exists r, phase_change_diagram globals p = Response r
            /\ is_finite (specific_volume_liquid r) = is_finite p.
Proof.
  intros H0. eexists. split; [apply (route_accepted p H0) |].
  cbn [specific_volume_liquid].
  destruct (is_finite p) eqn:Hf.
  - apply (between_finite (round ((0 - AL) / ML) 6) _
                          (round ((1.7976931348623157e308 - AL) / ML) 6)).
    + now apply liquid_mono.
    + apply liquid_mono. now apply finite_le_max.
    + reflexivity.
    + reflexivity.
  - rewrite (accepted_not_finite p H0 Hf). reflexivity.
Qed.

Lemma X8_witness :
  (0 <=? 1e308) = true
  /\ exists r, phase_change_diagram globals 1e308 = Response r
               /\ is_finite (specific_volume_liquid r) = is_finite 1e308.
Proof.
  split; [reflexivity |]. apply (X8_liquid_finite 1e308). reflexivity.
Defined.

(** X9.  A calibration with distinct finite x-values but a flat segment
    ([y1 == y2] or [y2 == y3]) is imported without error, and then every
    evaluation fails with the HTTP 400 of the division by zero. *)
Theorem X9_flat_segment (c : Calibration) (p : float) :
  is_finite (x1 c) = true -> is_finite (x2 c) = true -> is_finite (x3 c) = true ->
  (x1 c =? x2 c) = false -> (x2 c =? x3 c) = false ->
  ((y1 c =? y2 c) = true /\ is_finite (y1 c) = true)
  \/ ((y2 c =? y3 c) = true /\ is_finite (y2 c) = true) ->
  exists g, load c = Ret g
            /\ get_phase_change_diagram g p
               = HTTPException 400 "Error de división por cero en los cálculos".
Proof.
  intros F1 F2 F3 D12 D23 Hflat.
  eexists. split.
  - rewrite (load_finite c F1 F2), D12, D23. reflexivity.
  - apply zero_slope_is_400. cbn [derived ml mv].
    destruct Hflat as [[E Fy] | [E Fy]].
    + left. apply div_zero_l.
      * now apply sub_self_zero.
      * rewrite (sub_zero_iff _ _ F1). exact D12.
      * now apply sub_finite_not_nan.
    + right. apply div_zero_l.
      * now apply sub_self_zero.
      * rewrite (sub_zero_iff _ _ F2). exact D23.
      * now apply sub_finite_not_nan.
Qed.

Lemma X9_witness :
  exists g,
    load {| x1 := 1; x2 := 2; x3 := 3; y1 := 5; y2 := 5; y3 := 7 |} = Ret g
    /\ get_phase_change_diagram g 4
       = HTTPException 400 "Error de división por cero en los cálculos".
Proof.
  apply (X9_flat_segment
           {| x1 := 1; x2 := 2; x3 := 3; y1 := 5; y2 := 5; y3 := 7 |} 4);
    try reflexivity.
  left. split; reflexivity.
Defined.
